(** * Full-stockout streak detection: a model of [daily_store_product.py]

    The Python program loads one row per (dt, store_name, e_code), flags the
    days whose out-of-stock rate reaches a threshold, cuts every
    (store_name, e_code) series into runs of constant flag and reports, per
    group, the longest flagged run and the number of flagged days.  It is
    written with pandas; the tables are modelled as lists of records and each
    pandas operation the program calls as a function on such lists.

    What the model takes from the loader: the frame has a unique row label
    per row (the range index of [read_sql]), [store_name] and [e_code] are
    present strings and [dt] is a timestamp, read here as a day number; only
    [oos_rate] can be missing.  Rates and thresholds are exact fractions: a
    comparison of two floats, or of a decimal with a float, is the comparison
    of the fractions they stand for. *)

From Stdlib Require Import List ZArith QArith String Ascii Bool Arith Lia.
From Stdlib Require Import Permutation Sorting.Sorted.
From Stdlib Require DecimalString.
Import ListNotations.

Local Close Scope Q_scope.
Local Open Scope nat_scope.

(** ** Column orders

    pandas orders strings by code point, timestamps and integers by value.
    A Python [str] is represented by its UTF-8 bytes, whose bytewise order is
    the code point order. *)

Class Ord (K : Type) := { cmp : K -> K -> comparison }.

Class OrdLaws (K : Type) `{Ord K} := {
  cmp_eq : forall a b : K, cmp a b = Eq -> a = b;
  cmp_refl : forall a : K, cmp a a = Eq;
  cmp_antisym : forall a b : K, cmp a b = CompOpp (cmp b a);
  cmp_lt_trans : forall a b c : K, cmp a b = Lt -> cmp b c = Lt -> cmp a c = Lt
}.

(** Two sort columns combined: the second decides only when the first ties. *)
Definition lex (c1 c2 : comparison) : comparison :=
  match c1 with Eq => c2 | _ => c1 end.

Definition cmp_leb (c : comparison) : bool :=
  match c with Gt => false | _ => true end.

Definition cmp_eqb (c : comparison) : bool :=
  match c with Eq => true | _ => false end.

Definition key_eqb {K} `{Ord K} (a b : K) : bool := cmp_eqb (cmp a b).

#[export] Instance Ord_string : Ord string := {| cmp := String.compare |}.
#[export] Instance Ord_Z : Ord Z := {| cmp := Z.compare |}.
#[export] Instance Ord_nat : Ord nat := {| cmp := Nat.compare |}.

Definition pair_cmp {A B} `{Ord A} `{Ord B} (p q : A * B) : comparison :=
  lex (cmp (fst p) (fst q)) (cmp (snd p) (snd q)).

#[export] Instance Ord_pair {A B} `{Ord A} `{Ord B} : Ord (A * B) :=
  {| cmp := pair_cmp |}.

(** ** The pandas operations the program uses *)

Section Pandas.
Context {A : Type}.

(** [DataFrame.sort_values(by, ascending)] on several columns: pandas
    sorts the column codes with a stable lexicographic sort, so rows that
    tie on every column keep their order.  [c] compares two rows on the
    [by] columns (a descending column compared in reverse). *)
Fixpoint sort_insert (c : A -> A -> comparison) (x : A) (l : list A) : list A :=
  match l with
  | [] => [x]
  | y :: l' => if cmp_leb (c x y) then x :: y :: l' else y :: sort_insert c x l'
  end.

Fixpoint sort_values (c : A -> A -> comparison) (l : list A) : list A :=
  match l with
  | [] => []
  | x :: l' => sort_insert c x (sort_values c l')
  end.

Context {K : Type} `{Ord K}.

(** The group keys of [groupby(..., sort=True)]: the distinct keys in
    ascending order. *)
Fixpoint key_insert (k : K) (ks : list K) : list K :=
  match ks with
  | [] => [k]
  | k' :: ks' =>
      match cmp k k' with
      | Lt => k :: k' :: ks'
      | Eq => k' :: ks'
      | Gt => k' :: key_insert k ks'
      end
  end.

Definition group_keys (key : A -> K) (l : list A) : list K :=
  fold_right key_insert [] (map key l).

(** The rows of one group, in the order they have in the frame. *)
Definition get_group (key : A -> K) (k : K) (l : list A) : list A :=
  filter (fun r => key_eqb (key r) k) l.

(** [groupby(by)]: the groups in key order. *)
Definition groupby (key : A -> K) (l : list A) : list (K * list A) :=
  map (fun k => (k, get_group key k l)) (group_keys key l).

(** [groupby(by).head(n)]: the rows whose rank in their group
    ([cumcount]) is below [n], in frame order. *)
Fixpoint head_from (n : nat) (key : A -> K) (before l : list A) : list A :=
  match l with
  | [] => []
  | r :: l' =>
      if List.length (get_group key (key r) before) <? n
      then r :: head_from n key (before ++ [r]) l'
      else head_from n key (before ++ [r]) l'
  end.

Definition groupby_head (n : nat) (key : A -> K) (l : list A) : list A :=
  head_from n key [] l.

(** The maximal blocks of neighbouring rows with the same key.  For a
    frame whose rows are in key order these are its groups. *)
Fixpoint chunks (key : A -> K) (l : list A) : list (list A) :=
  match l with
  | [] => []
  | x :: l' =>
      match chunks key l' with
      | (y :: c') :: cs =>
          if key_eqb (key x) (key y) then (x :: y :: c') :: cs
          else [x] :: (y :: c') :: cs
      | _ => [[x]]
      end
  end.
End Pandas.

(** [Series.shift(1)]: every value moves one position down, the first
    position becomes missing. *)
Definition shift1 {A} (s : list A) : list (option A) :=
  firstn (List.length s) (None :: map Some s).

(** [s != t] for a boolean series against a shifted one: a missing value
    differs from everything. *)
Definition series_ne (s : list bool) (t : list (option bool)) : list bool :=
  map (fun p => match snd p with
                | Some b => negb (Bool.eqb (fst p) b)
                | None => true
                end) (combine s t).

(** [Series.cumsum()] of a boolean series. *)
Fixpoint cumsum_from (acc : nat) (s : list bool) : list nat :=
  match s with
  | [] => []
  | b :: s' =>
      let acc' := acc + (if b then 1 else 0) in
      acc' :: cumsum_from acc' s'
  end.

Definition cumsum (s : list bool) : list nat := cumsum_from 0 s.

(** ** Tables *)

(** A row of the frame [load_daily_store_product] returns. *)
Record daily_row := mk_daily {
  dt : Z;
  store_name : string;
  e_code : string;
  oos_cnt : Z;
  total_cnt : Z;
  oos_rate : option Q
}.

(** The same row with the columns the function adds. *)
Record flagged_row := mk_flagged {
  daily : daily_row;
  is_full_oos : bool
}.

Record run_id_row := mk_run_id_row {
  flagged : flagged_row;
  run_id : nat
}.

(** A row of [runs]. *)
Record run := mk_run {
  run_store_name : string;
  run_e_code : string;
  run_run_id : nat;
  run_is_full_oos : bool;
  start_dt : Z;
  end_dt : Z;
  days : nat
}.

(** A row of [summary] before the merge with the day totals. *)
Record streak_row := mk_streak {
  streak_store_name : string;
  streak_e_code : string;
  streak_start_dt : Z;
  streak_end_dt : Z;
  streak_days : nat
}.

(** A row of [summary]. *)
Record summary_row := mk_summary {
  sum_store_name : string;
  sum_e_code : string;
  max_streak_start_dt : Z;
  max_streak_end_dt : Z;
  max_full_oos_streak_days : nat;
  total_full_oos_days : nat
}.

Definition group_key : Type := string * string.
Definition run_key : Type := string * string * nat.

Definition daily_group (r : daily_row) : group_key := (store_name r, e_code r).
Definition flagged_group (r : flagged_row) : group_key := daily_group (daily r).
Definition row_group (r : run_id_row) : group_key := flagged_group (flagged r).
Definition row_flag (r : run_id_row) : bool := is_full_oos (flagged r).
Definition row_dt (r : run_id_row) : Z := dt (daily (flagged r)).
Definition row_run_key (r : run_id_row) : run_key := (row_group r, run_id r).
Definition run_group (r : run) : group_key := (run_store_name r, run_e_code r).
Definition streak_group (r : streak_row) : group_key :=
  (streak_store_name r, streak_e_code r).
Definition sum_group (r : summary_row) : group_key :=
  (sum_store_name r, sum_e_code r).

(** ** [calc_full_oos_streaks] *)

Definition fillna {A} (v : option A) (d : A) : A :=
  match v with Some x => x | None => d end.

(** [df["oos_rate"].fillna(0) >= rate_threshold] on one row. *)
Definition full_oos_flag (rate_threshold : Q) (rate : option Q) : bool :=
  Qle_bool rate_threshold (fillna rate (0 # 1)%Q).

Definition add_is_full_oos (rate_threshold : Q) (df : list daily_row)
  : list flagged_row :=
  map (fun r => mk_flagged r (full_oos_flag rate_threshold (oos_rate r))) df.

(** [sort_values(["store_name", "e_code", "dt"])]. *)
Definition cmp_group_dt (a b : flagged_row) : comparison :=
  lex (cmp (flagged_group a) (flagged_group b))
      (cmp (dt (daily a)) (dt (daily b))).

(** [lambda s: (s != s.shift(1)).cumsum()]. *)
Definition change_count (s : list bool) : list nat :=
  cumsum (series_ne s (shift1 s)).

(** [df["run_id"] = df.groupby(group_cols)["is_full_oos"].apply(...)
    .reset_index(level=group_cols, drop=True)]: the lambda is applied to the
    flag series of every group, and the assignment aligns the result on the
    row labels, so a row receives the value computed at its position in its
    group's series. *)
Fixpoint assign_run_id_from (df before rest : list flagged_row)
  : list run_id_row :=
  match rest with
  | [] => []
  | r :: rest' =>
      let s := map is_full_oos (get_group flagged_group (flagged_group r) df) in
      let pos := List.length (get_group flagged_group (flagged_group r) before) in
      mk_run_id_row r (nth pos (change_count s) 0)
        :: assign_run_id_from df (before ++ [r]) rest'
  end.

Definition assign_run_id (df : list flagged_row) : list run_id_row :=
  assign_run_id_from df [] df.

Definition series_min (d : Z) (s : list Z) : Z := fold_left Z.min s d.
Definition series_max (d : Z) (s : list Z) : Z := fold_left Z.max s d.

(** The named aggregations of one [(store_name, e_code, run_id)] group. *)
Definition agg_run (k : run_key) (rows : list run_id_row) : option run :=
  match rows with
  | [] => None
  | r :: rest =>
      Some (mk_run (fst (fst k)) (snd (fst k)) (snd k)
                   (row_flag r)
                   (series_min (row_dt r) (map row_dt rest))
                   (series_max (row_dt r) (map row_dt rest))
                   (List.length rows))
  end.

Definition option_list {A} (o : option A) : list A :=
  match o with Some x => [x] | None => [] end.

(** [df.groupby(group_cols + ["run_id"], as_index=False).agg(...)]. *)
Definition make_runs (df : list run_id_row) : list run :=
  flat_map (fun g => option_list (agg_run (fst g) (snd g)))
           (groupby row_run_key df).

(** [sort_values(["store_name", "e_code", "days"],
                 ascending=[True, True, False])]. *)
Definition cmp_group_days_desc (a b : run) : comparison :=
  lex (cmp (run_group a) (run_group b)) (cmp (days b) (days a)).

(** The renaming and the dropped columns of [summary]. *)
Definition streak_of_run (r : run) : streak_row :=
  mk_streak (run_store_name r) (run_e_code r) (start_dt r) (end_dt r) (days r).

Definition max_streaks (full_runs : list run) : list streak_row :=
  map streak_of_run
      (groupby_head 1 run_group (sort_values cmp_group_days_desc full_runs)).

(** [df[df["is_full_oos"]].groupby(group_cols, as_index=False)
      .agg(total_full_oos_days=("is_full_oos", "size"))]. *)
Definition total_full_days (df : list run_id_row) : list (group_key * nat) :=
  map (fun g => (fst g, List.length (snd g)))
      (groupby row_group (filter row_flag df)).

(** [summary.merge(total_full_days, on=group_cols, how="left")]: the rows of
    the left frame in their order, each with its matches in the right frame,
    or with a missing total when there is none. *)
Definition merge_left (left : list streak_row) (right : list (group_key * nat))
  : list (streak_row * option nat) :=
  flat_map (fun s =>
              match filter (fun t => key_eqb (fst t) (streak_group s)) right with
              | [] => [(s, None)]
              | ms => map (fun t => (s, Some (snd t))) ms
              end) left.

(** [.fillna({"total_full_oos_days": 0})] and the two [astype(int)]. *)
Definition finish_summary (p : streak_row * option nat) : summary_row :=
  let s := fst p in
  mk_summary (streak_store_name s) (streak_e_code s)
             (streak_start_dt s) (streak_end_dt s)
             (streak_days s) (fillna (snd p) 0).

Definition make_summary (df : list run_id_row) (runs : list run)
  : list summary_row :=
  let full_runs := filter run_is_full_oos runs in
  map finish_summary (merge_left (max_streaks full_runs) (total_full_days df)).

(** The function: the three tables it returns. *)
Definition calc_full_oos_streaks (df : list daily_row) (rate_threshold : Q)
  : list run_id_row * list run * list summary_row :=
  let df1 := add_is_full_oos rate_threshold df in
  let df2 := sort_values cmp_group_dt df1 in
  let df3 := assign_run_id df2 in
  let runs := make_runs df3 in
  (df3, runs, make_summary df3 runs).

(** The three returned tables by name. *)
Definition flagged_daily (df : list daily_row) (rate_threshold : Q)
  : list run_id_row := fst (fst (calc_full_oos_streaks df rate_threshold)).
Definition run_table (df : list daily_row) (rate_threshold : Q)
  : list run := snd (fst (calc_full_oos_streaks df rate_threshold)).
Definition summary_table (df : list daily_row) (rate_threshold : Q)
  : list summary_row := snd (calc_full_oos_streaks df rate_threshold).

Definition default_threshold : Q := (999 # 1000)%Q.

(** The binary floating-point numbers that Python reads for the literals
    [0.999], [0.9991] and [0.9989], as exact fractions.  Comparing two
    floats, or a decimal with a float, compares these values exactly. *)
Definition float_0_999 : Q := (8998192055486251 # 9007199254740992)%Q.
Definition float_0_9991 : Q := (8999092775411725 # 9007199254740992)%Q.
Definition float_0_9989 : Q := (8997291335560777 # 9007199254740992)%Q.

(** ** The ranked view of [main] *)

(** [sort_values(["max_full_oos_streak_days", "total_full_oos_days"],
                 ascending=False)]. *)
Definition cmp_rank (a b : summary_row) : comparison :=
  lex (cmp (max_full_oos_streak_days b) (max_full_oos_streak_days a))
      (cmp (total_full_oos_days b) (total_full_oos_days a)).

(** [.head(n)]. *)
Definition top (n : nat) (summary : list summary_row) : list summary_row :=
  firstn n (sort_values cmp_rank summary).

(** ** Runs on concrete tables *)

(** A row as the query of [load_daily_store_product] computes it from the
    two counts: [oos_cnt / NULLIF(total_cnt, 0)]. *)
Definition row (d : Z) (s e : string) (oos total : Z) : daily_row :=
  mk_daily d s e oos total
           (if (total =? 0)%Z then None else Some (Qmake oos (Z.to_pos total))).

(** Dates 1, 2, 4, 5 of one group, every day fully out of stock. *)
Definition ex_gap : list daily_row :=
  [ row 1 "A" "p" 5 5; row 2 "A" "p" 5 5; row 4 "A" "p" 5 5; row 5 "A" "p" 5 5 ].

(** Six consecutive dates flagged true, true, false, true, true, true. *)
Definition ex_six : list daily_row :=
  [ row 1 "A" "p" 5 5; row 2 "A" "p" 5 5; row 3 "A" "p" 1 5;
    row 4 "A" "p" 5 5; row 5 "A" "p" 5 5; row 6 "A" "p" 5 5 ].

(** Two flagged runs of length two, dates 1-2 and 4-5. *)
Definition ex_tie : list daily_row :=
  [ row 1 "A" "p" 5 5; row 2 "A" "p" 5 5; row 3 "A" "p" 1 5;
    row 4 "A" "p" 5 5; row 5 "A" "p" 5 5 ].

(** One group that is never out of stock beside one that is. *)
Definition ex_never : list daily_row :=
  [ row 1 "A" "p" 0 5; row 2 "A" "p" 1 5; row 1 "B" "p" 5 5 ].

(** Three groups that tie on both metrics, given out of group order, and a
    group with a longer streak. *)
Definition ex_rank : list daily_row :=
  [ row 1 "B" "p" 5 5; row 1 "A" "q" 5 5; row 1 "C" "p" 5 5;
    row 1 "A" "p" 5 5; row 2 "C" "p" 5 5 ].

(** A day with no stock record at all: [total_cnt] is 0 and the rate is
    missing. *)
Definition ex_null : list daily_row :=
  [ row 1 "A" "p" 5 5; row 2 "A" "p" 0 0; row 3 "A" "p" 5 5 ].

(** Two rows of one group with the same date, and rows out of date order. *)
Definition ex_dup : list daily_row :=
  [ row 1 "A" "p" 5 5; row 1 "A" "p" 5 5 ].
Definition ex_unordered : list daily_row :=
  [ row 3 "A" "p" 5 5; row 1 "A" "p" 5 5; row 2 "A" "p" 0 5 ].

(** ** Frames as objects

    The Python function receives a reference to the caller's frame, rebinds
    its local names to new frames and assigns columns in place.  The heap
    holds the frames; a reference is a position in it. *)

Inductive frame :=
| DailyFrame (rows : list daily_row)
| FlaggedFrame (rows : list flagged_row)
| RunIdFrame (rows : list run_id_row)
| RunFrame (rows : list run)
| StreakFrame (rows : list streak_row)
| TotalFrame (rows : list (group_key * nat))
| SummaryFrame (rows : list summary_row).

Definition ref := nat.
Definition heap := list frame.

(** A computation on the heap; [None] is a call that raises instead of
    returning (a frame without the column a statement reads). *)
Definition M (A : Type) : Type := heap -> option (A * heap).

Definition ret {A} (a : A) : M A := fun h => Some (a, h).

Definition bind {A B} (c : M A) (k : A -> M B) : M B :=
  fun h => match c h with
           | Some (a, h') => k a h'
           | None => None
           end.

Declare Scope heap_scope.
Delimit Scope heap_scope with heap.
Notation "x <- c ;; k" := (bind c (fun x => k))
  (at level 61, c at next level, right associativity) : heap_scope.
Notation "c ;; k" := (bind c (fun _ => k))
  (at level 61, right associativity) : heap_scope.

(** A new frame object. *)
Definition alloc (f : frame) : M ref :=
  fun h => Some (List.length h, h ++ [f]).

Definition load (p : ref) : M frame :=
  fun h => match nth_error h p with
           | Some f => Some (f, h)
           | None => None
           end.

Fixpoint heap_set (h : heap) (p : ref) (f : frame) : heap :=
  match h, p with
  | [], _ => []
  | _ :: h', O => f :: h'
  | g :: h', S p' => g :: heap_set h' p' f
  end.

(** An assignment to a column of an existing frame object. *)
Definition store (p : ref) (f : frame) : M unit :=
  fun h => match nth_error h p with
           | Some _ => Some (tt, heap_set h p f)
           | None => None
           end.

Definition fail {A} : M A := fun _ => None.

Definition load_daily (p : ref) : M (list daily_row) :=
  (f <- load p ;; match f with DailyFrame r => ret r | _ => fail end)%heap.
Definition load_flagged (p : ref) : M (list flagged_row) :=
  (f <- load p ;; match f with FlaggedFrame r => ret r | _ => fail end)%heap.
Definition load_run_id (p : ref) : M (list run_id_row) :=
  (f <- load p ;; match f with RunIdFrame r => ret r | _ => fail end)%heap.
Definition load_runs (p : ref) : M (list run) :=
  (f <- load p ;; match f with RunFrame r => ret r | _ => fail end)%heap.
Definition load_streaks (p : ref) : M (list streak_row) :=
  (f <- load p ;; match f with StreakFrame r => ret r | _ => fail end)%heap.
Definition load_totals (p : ref) : M (list (group_key * nat)) :=
  (f <- load p ;; match f with TotalFrame r => ret r | _ => fail end)%heap.
Definition load_summary (p : ref) : M (list summary_row) :=
  (f <- load p ;; match f with SummaryFrame r => ret r | _ => fail end)%heap.

(** The function statement by statement; [df] is the caller's reference. *)
Definition calc_full_oos_streaks_obj (df : ref) (rate_threshold : Q)
  : M (ref * ref * ref) :=
  ((* df = df.copy() *)
   rows <- load_daily df ;;
   df <- alloc (DailyFrame rows) ;;
   (* df["is_full_oos"] = df["oos_rate"].fillna(0) >= rate_threshold *)
   rows <- load_daily df ;;
   store df (FlaggedFrame (add_is_full_oos rate_threshold rows)) ;;
   (* df = df.sort_values(["store_name", "e_code", "dt"]) *)
   rows <- load_flagged df ;;
   df <- alloc (FlaggedFrame (sort_values cmp_group_dt rows)) ;;
   (* df["run_id"] = ... *)
   rows <- load_flagged df ;;
   store df (RunIdFrame (assign_run_id rows)) ;;
   (* runs = df.groupby(group_cols + ["run_id"], as_index=False).agg(...) *)
   rows <- load_run_id df ;;
   runs <- alloc (RunFrame (make_runs rows)) ;;
   (* full_runs = runs[runs["is_full_oos"]].copy() *)
   rs <- load_runs runs ;;
   full_runs <- alloc (RunFrame (filter run_is_full_oos rs)) ;;
   (* summary = full_runs.sort_values(...).groupby(...).head(1)... *)
   rs <- load_runs full_runs ;;
   summary <- alloc (StreakFrame (max_streaks rs)) ;;
   (* total_full_days = df[df["is_full_oos"]].groupby(...).agg(...) *)
   rows <- load_run_id df ;;
   total <- alloc (TotalFrame (total_full_days rows)) ;;
   (* summary = summary.merge(total_full_days, ...).fillna(...) *)
   ss <- load_streaks summary ;;
   ts <- load_totals total ;;
   summary <- alloc (SummaryFrame (map finish_summary (merge_left ss ts))) ;;
   (* summary[...] = summary[...].astype(int), twice *)
   ss <- load_summary summary ;;
   store summary (SummaryFrame ss) ;;
   ss <- load_summary summary ;;
   store summary (SummaryFrame ss) ;;
   (* return df, runs, summary *)
   ret (df, runs, summary))%heap.

(** ** Vocabulary of the statements *)

(** [a] is not after [b] in the order a comparison of rows defines, and
    [a] is strictly before [b] in the order of a column. *)
Definition le_of {A} (c : A -> A -> comparison) (a b : A) : Prop :=
  cmp_leb (c a b) = true.

Definition lt_of {K} `{Ord K} (a b : K) : Prop := cmp a b = Lt.

(** A comparison of rows that a sort can use: a total preorder. *)
Class CmpOk {A} (c : A -> A -> comparison) : Prop := {
  c_antisym : forall a b, c a b = CompOpp (c b a);
  c_le_trans : forall a b d, le_of c a b -> le_of c b d -> le_of c a d
}.

(** The step from one row of a group series to the next: the identifier
    grows by one exactly when the flag changes. *)
Definition id_step (a b : run_id_row) : Prop :=
  run_id b = run_id a + (if Bool.eqb (row_flag b) (row_flag a) then 0 else 1).

(** The flag of a block of rows: the flag of its first row. *)
Definition chunk_flag (c : list run_id_row) : bool :=
  match c with
  | x :: _ => row_flag x
  | [] => false
  end.

(** [r] is the run table's row for the block [c] of group [g]: the block's
    rows carry one run identifier and [r] is their aggregate. *)
Definition run_of_chunk (g : group_key) (r : run) (c : list run_id_row) : Prop :=
  exists i, agg_run (g, i) c = Some r /\ Forall (fun y => run_id y = i) c.

(** What the run table's row [r] says about the block [c] of rows: the
    rows carry the run's identifier and flag, [days] counts them, and the
    bounds are their earliest and latest date. *)
Definition run_covers (r : run) (c : list run_id_row) : Prop :=
  c <> []
  /\ days r = List.length c
  /\ Forall (fun x => run_id x = run_run_id r
                      /\ row_flag x = run_is_full_oos r
                      /\ (start_dt r <= row_dt x <= end_dt r)%Z) c
  /\ In (start_dt r) (map row_dt c)
  /\ In (end_dt r) (map row_dt c).

(** The number of flagged rows of a group in the daily table. *)
Definition full_days_of (D : list run_id_row) (g : group_key) : nat :=
  List.length (get_group row_group g (filter row_flag D)).

(** A row of [summary] built from a row of the max-streak frame and the
    flagged days of its group. *)
Definition summary_of_streak (D : list run_id_row) (s : streak_row)
  : summary_row :=
  mk_summary (streak_store_name s) (streak_e_code s)
             (streak_start_dt s) (streak_end_dt s) (streak_days s)
             (full_days_of D (streak_group s)).

(** The order of the leaderboard: the two sort columns of [cmp_rank], and
    (store_name, e_code) ascending among rows that tie on both. *)
Definition cmp_rank_group (a b : summary_row) : comparison :=
  lex (cmp_rank a b) (cmp (sum_group a) (sum_group b)).

Definition ranked_before (a b : summary_row) : Prop :=
  cmp_rank_group a b = Lt.

(** What identifies a daily row: its group and its date. *)
Definition daily_key (r : daily_row) : string * string * Z :=
  (store_name r, e_code r, dt r).

(** The input the specification calls an ordering violation: within some
    group, taken in the order of the input rows, a date is not later than
    the date before it (a duplicate or an out-of-order date). *)
Fixpoint strictly_increasing (s : list Z) : bool :=
  match s with
  | a :: (b :: _) as rest => (a <? b)%Z && strictly_increasing rest
  | _ => true
  end.

Definition spec_ordering_violation (df : list daily_row) : bool :=
  existsb (fun g => negb (strictly_increasing (map dt (snd g))))
          (groupby daily_group df).

(** The sort order of the function, on the rows of the input. *)
Definition cmp_daily (a b : daily_row) : comparison :=
  lex (cmp (daily_group a) (daily_group b)) (cmp (dt a) (dt b)).

(** Two summary rows tie on both metrics of the leaderboard. *)
Definition rank_tie (x y : summary_row) : bool := cmp_eqb (cmp_rank x y).

(** The order of the bars: increasing in both metrics, and
    (store_name, e_code) ascending among rows that tie on both. *)
Definition plotted_before (a b : summary_row) : Prop :=
  lex (cmp_rank b a) (cmp (sum_group a) (sum_group b)) = Lt.

(** Neighbouring values differ. *)
Definition alternating (flags : list bool) : Prop :=
  Sorted (fun a b : bool => a <> b) flags.

(** ** The labels and the bar order of [viz_top10_store_problem.py]

    The characters of a Python string are counted on its UTF-8 bytes: a
    byte 10xxxxxx continues a character, every other byte starts one. *)

Definition is_continuation (c : ascii) : bool :=
  (128 <=? nat_of_ascii c) && (nat_of_ascii c <? 192).

(** [len(s)]. *)
Fixpoint py_len (s : string) : nat :=
  match s with
  | EmptyString => 0
  | String c s' => (if is_continuation c then 0 else 1) + py_len s'
  end.

(** [s[:n]] for a count [n]: the first [n] characters. *)
Fixpoint py_take (n : nat) (s : string) : string :=
  match s with
  | EmptyString => EmptyString
  | String c s' =>
      if is_continuation c then String c (py_take n s')
      else match n with
           | O => EmptyString
           | S n' => String c (py_take n' s')
           end
  end.

(** The character U+2026. *)
Definition ellipsis : string :=
  String (ascii_of_nat 226) (String (ascii_of_nat 128)
         (String (ascii_of_nat 166) EmptyString)).

(** [short_store(s, n)]: [s if len(s) <= n else s[:n] + ellipsis]. *)
Definition short_store (s : string) (n : nat) : string :=
  if py_len s <=? n then s else (py_take n s ++ ellipsis)%string.

(** A row of the frame the bar plot is drawn from: a row of the ranked
    view with its [y_key] label. *)
Record plot_row := mk_plot {
  plot_summary : summary_row;
  y_key : string
}.

(** [f"{short_store(r['store_name'])} | {r['e_code']}"]. *)
Definition make_y_key (r : summary_row) : string :=
  (short_store (sum_store_name r) 14 ++ " | " ++ sum_e_code r)%string.

(** [sort_values(["max_full_oos_streak_days", "total_full_oos_days"],
                 ascending=[True, True])]. *)
Definition cmp_plot (a b : plot_row) : comparison :=
  lex (cmp (max_full_oos_streak_days (plot_summary a))
           (max_full_oos_streak_days (plot_summary b)))
      (cmp (total_full_oos_days (plot_summary a))
           (total_full_oos_days (plot_summary b))).

(** The frame [draw_top10_problem_items_by_store] hands to the bar plot. *)
Definition plot_frame (df_top10 : list summary_row) : list plot_row :=
  sort_values cmp_plot (map (fun r => mk_plot r (make_y_key r)) df_top10).

(** ** The font of [setup_korean_font] *)

Definition font_candidates : list string :=
  [ "AppleGothic"; "Apple SD Gothic Neo"; "NanumGothic"; "Noto Sans CJK KR";
    "Noto Sans KR"; "Malgun Gothic"; "맑은 고딕" ]%string.

(** A value assigned to an entry of [mpl.rcParams]. *)
Inductive rc_value :=
| RcStr (v : string)
| RcList (v : list string)
| RcBool (v : bool).

(** What the function does to the world outside it, one call at a time:
    an assignment [mpl.rcParams[key] = value], the call
    [sns.set_theme(style=..., font=...)], a printed line.  What
    [sns.set_theme] in turn does to [mpl.rcParams] is seaborn's and is not
    part of the function. *)
Inductive font_call :=
| RcParam (key : string) (value : rc_value)
| SetTheme (style font : string)
| PrintLine (line : string).

Definition font_warning : string :=
  "[FONT] 한글 폰트를 못 찾음. (AppleGothic/Nanum/Noto 설치 확인)".

(** The calls of [setup_korean_font], in the order it makes them.
    [installed] answers [name in installed] for the set of font names. *)
Definition setup_korean_font (installed : string -> bool) : list font_call :=
  let found := find installed font_candidates in
  let chosen := match found with
                | Some name => name
                | None => "sans-serif"%string
                end in
  (match found with
   | Some _ => []
   | None => [PrintLine font_warning]
   end)
  ++ [ RcParam "font.family" (RcStr chosen);
       RcParam "font.sans-serif" (RcList [chosen]);
       RcParam "axes.unicode_minus" (RcBool false);
       SetTheme "whitegrid" chosen;
       PrintLine ("[FONT] using: " ++ chosen) ].

(** The calls that set something, as opposed to printed lines. *)
Definition is_setting (c : font_call) : bool :=
  match c with
  | PrintLine _ => false
  | _ => true
  end.

(** ** The environment of [daily_store_product.py] *)

(** [os.environ]: the value of a variable, when it is set. *)
Definition environ : Type := string -> option string.

(** The whitespace characters of [str.strip()], as UTF-8 bytes: U+0009 to
    U+000D, U+001C to U+0020, U+0085, U+00A0, U+1680, U+2000 to U+200A,
    U+2028, U+2029, U+202F, U+205F and U+3000. *)
Definition space_1 (x : nat) : bool :=
  ((9 <=? x) && (x <=? 13)) || ((28 <=? x) && (x <=? 32)).

Definition space_2 (x y : nat) : bool :=
  (x =? 194) && ((y =? 133) || (y =? 160)).

Definition space_3 (x y z : nat) : bool :=
  ((x =? 225) && (y =? 154) && (z =? 128))
  || ((x =? 226) && (y =? 128)
      && (((128 <=? z) && (z <=? 138)) || (z =? 168) || (z =? 169) || (z =? 175)))
  || ((x =? 226) && (y =? 129) && (z =? 159))
  || ((x =? 227) && (y =? 128) && (z =? 128)).

(** [s.strip() == ""]: the string holds whitespace only. *)
Fixpoint is_blank (s : string) : bool :=
  match s with
  | EmptyString => true
  | String a s1 =>
      if space_1 (nat_of_ascii a) then is_blank s1
      else
        match s1 with
        | EmptyString => false
        | String b s2 =>
            if space_2 (nat_of_ascii a) (nat_of_ascii b) then is_blank s2
            else
              match s2 with
              | EmptyString => false
              | String c s3 =>
                  if space_3 (nat_of_ascii a) (nat_of_ascii b) (nat_of_ascii c)
                  then is_blank s3
                  else false
              end
        end
  end.

(** [getenv_any]: the value of the first of [keys] that is set and not
    blank, or [default]. *)
Fixpoint getenv_any (env : environ) (keys : list string)
         (default : option string) : option string :=
  match keys with
  | [] => default
  | k :: keys' =>
      match env k with
      | Some v => if negb (is_blank v) then Some v
                  else getenv_any env keys' default
      | None => getenv_any env keys' default
      end
  end.

(** The truth value of a string or [None] in [all([...])]. *)
Definition truthy (v : option string) : bool :=
  match v with
  | Some s => negb (s =? "")%string
  | None => false
  end.

(** [str(v)] in an f-string, for a string or [None]. *)
Definition py_str (v : option string) : string :=
  match v with
  | Some s => s
  | None => "None"%string
  end.

(** [str(n)] for an integer. *)
Definition py_str_int (n : Z) : string :=
  DecimalString.NilZero.string_of_int (Z.to_int n).

(** How a call of [get_engine] ends: in the call of [create_engine] on a
    URL, or in one of the errors. *)
Inductive engine_outcome :=
| CreateEngine (url : string)
| ValueError
| TypeError
| RuntimeError (message : string).

Section GetEngine.
(** Python's [int] on a string: the number, or nothing for a [ValueError]. *)
Variable py_int : string -> option Z.

Definition get_engine (env : environ) : engine_outcome :=
  let host := getenv_any env ["MYSQL_HOST"; "DB_HOST"]%string None in
  match getenv_any env ["MYSQL_PORT"; "DB_PORT"]%string (Some "3306"%string) with
  | None => TypeError
  | Some port_text =>
      match py_int port_text with
      | None => ValueError
      | Some port =>
          let user := getenv_any env ["MYSQL_USER"; "DB_USER"]%string None in
          let password :=
            match env "MYSQL_PASSWORD"%string with
            | Some p => p
            | None => match env "DB_PASSWORD"%string with
                      | Some p => p
                      | None => ""%string
                      end
            end in
          let db := getenv_any env ["MYSQL_DB"; "DB_NAME"]%string None in
          if negb (truthy host && truthy user && truthy db)
          then RuntimeError ("Missing env. MYSQL_HOST=" ++ py_str host
                             ++ ", MYSQL_USER=" ++ py_str user
                             ++ ", MYSQL_DB=" ++ py_str db)%string
          else CreateEngine ("mysql+pymysql://" ++ py_str user ++ ":"
                             ++ password ++ "@" ++ py_str host ++ ":"
                             ++ py_str_int port ++ "/" ++ py_str db
                             ++ "?charset=utf8mb4")%string
      end
  end.
End GetEngine.

(** A variable has a value that is not blank. *)
Definition has_value (env : environ) (k : string) : bool :=
  match env k with
  | Some v => negb (is_blank v)
  | None => false
  end.

(** The environment with one variable set or unset. *)
Definition setenv (env : environ) (k : string) (v : option string) : environ :=
  fun k' => if (k' =? k)%string then v else env k'.

(** ** The column orders are total orders *)

Lemma ascii_cmp_refl a : Ascii.compare a a = Eq.
Proof. unfold Ascii.compare. apply N.compare_refl. Qed.

Lemma ascii_cmp_lt_trans a b c :
  Ascii.compare a b = Lt -> Ascii.compare b c = Lt -> Ascii.compare a c = Lt.
Proof.
  unfold Ascii.compare. rewrite !N.compare_lt_iff. apply N.lt_trans.
Qed.

Lemma string_cmp_refl s : String.compare s s = Eq.
Proof.
  induction s as [|a s IH]; simpl; [reflexivity|].
  now rewrite ascii_cmp_refl.
Qed.

Lemma string_cmp_lt_trans s1 s2 s3 :
  String.compare s1 s2 = Lt -> String.compare s2 s3 = Lt ->
  String.compare s1 s3 = Lt.
Proof.
  revert s2 s3.
  induction s1 as [|a s1 IH]; intros [|b s2] [|c s3]; simpl;
    try discriminate; try reflexivity.
  destruct (Ascii.compare a b) eqn:Hab; try discriminate;
    destruct (Ascii.compare b c) eqn:Hbc; try discriminate; intros H1 H2.
  - apply Ascii.compare_eq_iff in Hab, Hbc. subst.
    rewrite ascii_cmp_refl. eapply IH; eassumption.
  - apply Ascii.compare_eq_iff in Hab. subst. now rewrite Hbc.
  - apply Ascii.compare_eq_iff in Hbc. subst. now rewrite Hab.
  - now rewrite (ascii_cmp_lt_trans _ _ _ Hab Hbc).
Qed.

#[export] Instance OrdLaws_string : OrdLaws string.
Proof.
  split; simpl.
  - apply String.compare_eq_iff.
  - apply string_cmp_refl.
  - apply String.compare_antisym.
  - apply string_cmp_lt_trans.
Qed.

#[export] Instance OrdLaws_Z : OrdLaws Z.
Proof.
  split; simpl.
  - intros a b. apply Z.compare_eq_iff.
  - apply Z.compare_refl.
  - intros a b. apply Z.compare_antisym.
  - intros a b c. rewrite !Z.compare_lt_iff. apply Z.lt_trans.
Qed.

#[export] Instance OrdLaws_nat : OrdLaws nat.
Proof.
  split; simpl.
  - intros a b. apply Nat.compare_eq_iff.
  - apply Nat.compare_refl.
  - intros a b. apply Nat.compare_antisym.
  - intros a b c. rewrite !Nat.compare_lt_iff. apply Nat.lt_trans.
Qed.

#[export] Instance OrdLaws_pair {A B} `{OrdLaws A} `{OrdLaws B} : OrdLaws (A * B).
Proof.
  split; simpl; unfold pair_cmp, lex.
  - intros [a b] [a' b']; simpl.
    destruct (cmp a a') eqn:Ha; try discriminate. intros Hb.
    apply cmp_eq in Ha, Hb. now subst.
  - intros p. now rewrite !cmp_refl.
  - intros p q.
    rewrite (cmp_antisym (fst p)), (cmp_antisym (snd p)).
    now destruct (cmp (fst q) (fst p)).
  - intros p q r.
    destruct (cmp (fst p) (fst q)) eqn:H1'; try discriminate;
      destruct (cmp (fst q) (fst r)) eqn:H2'; try discriminate; intros H3 H4.
    + apply cmp_eq in H1', H2'. rewrite H1', H2', cmp_refl.
      eapply cmp_lt_trans; eassumption.
    + apply cmp_eq in H1'. now rewrite H1', H2'.
    + apply cmp_eq in H2'. now rewrite <- H2', H1'.
    + now rewrite (cmp_lt_trans _ _ _ H1' H2').
Qed.

Example ex_gap_runs :
  snd (fst (calc_full_oos_streaks ex_gap default_threshold))
  = [ mk_run "A" "p" 1 true 1 5 4 ].
Proof. vm_compute. reflexivity. Qed.

Example ex_six_runs :
  snd (fst (calc_full_oos_streaks ex_six default_threshold))
  = [ mk_run "A" "p" 1 true 1 2 2; mk_run "A" "p" 2 false 3 3 1;
      mk_run "A" "p" 3 true 4 6 3 ].
Proof. vm_compute. reflexivity. Qed.

Example ex_six_summary :
  snd (calc_full_oos_streaks ex_six default_threshold)
  = [ mk_summary "A" "p" 4 6 3 5 ].
Proof. vm_compute. reflexivity. Qed.

(** ** Comparisons used as sort orders *)

Lemma cmp_le_trans {K} `{OrdLaws K} (a b d : K) :
  le_of cmp a b -> le_of cmp b d -> le_of cmp a d.
Proof.
  unfold le_of. intros Hab Hbd.
  destruct (cmp a b) eqn:E1; try discriminate;
    destruct (cmp b d) eqn:E2; try discriminate.
  - apply cmp_eq in E1, E2. subst. now rewrite cmp_refl.
  - apply cmp_eq in E1. subst. now rewrite E2.
  - apply cmp_eq in E2. subst. now rewrite E1.
  - now rewrite (cmp_lt_trans _ _ _ E1 E2).
Qed.

Lemma CmpOk_key {A K} `{OrdLaws K} (f : A -> K) :
  CmpOk (fun a b => cmp (f a) (f b)).
Proof.
  split.
  - intros a b. apply cmp_antisym.
  - intros a b d. apply cmp_le_trans.
Qed.

Lemma CmpOk_key_desc {A K} `{OrdLaws K} (f : A -> K) :
  CmpOk (fun a b => cmp (f b) (f a)).
Proof.
  split.
  - intros a b. apply cmp_antisym.
  - intros a b d Hab Hbd. exact (cmp_le_trans _ _ _ Hbd Hab).
Qed.

Section CmpFacts.
Context {A : Type} (c : A -> A -> comparison) `{!CmpOk c}.

Lemma c_not_le a b : cmp_leb (c a b) = false -> c b a = Lt.
Proof.
  rewrite (c_antisym a b). destruct (c b a); simpl; congruence.
Qed.

Lemma c_lt_le a b : c a b = Lt -> le_of c a b.
Proof. unfold le_of. now intros ->. Qed.

Lemma c_eq_le a b : c a b = Eq -> le_of c a b /\ le_of c b a.
Proof.
  unfold le_of. intros E. rewrite (c_antisym b a), E. now split.
Qed.

Lemma c_le_le_eq a b : le_of c a b -> le_of c b a -> c a b = Eq.
Proof.
  unfold le_of. rewrite (c_antisym b a). destruct (c a b); simpl; congruence.
Qed.

(** The comparison is constant on tied rows. *)
Lemma c_eq_l a b d : c a b = Eq -> c a d = c b d.
Proof.
  intros E. destruct (c_eq_le _ _ E) as [Hab Hba].
  destruct (c a d) eqn:Ead, (c b d) eqn:Ebd; try reflexivity; exfalso.
  - destruct (c_eq_le _ _ Ead) as [_ Hda].
    pose proof (c_le_le_eq _ _ (c_lt_le _ _ Ebd) (c_le_trans _ _ _ Hda Hab)).
    congruence.
  - destruct (c_eq_le _ _ Ead) as [Had _].
    pose proof (c_le_trans _ _ _ Hba Had) as H. unfold le_of in H.
    now rewrite Ebd in H.
  - destruct (c_eq_le _ _ Ebd) as [_ Hdb].
    pose proof (c_le_le_eq _ _ (c_lt_le _ _ Ead) (c_le_trans _ _ _ Hdb Hba)).
    congruence.
  - apply c_lt_le in Ead.
    pose proof (c_le_trans _ _ _ Hba Ead) as H. unfold le_of in H.
    now rewrite Ebd in H.
  - destruct (c_eq_le _ _ Ebd) as [Hbd _].
    pose proof (c_le_trans _ _ _ Hab Hbd) as H. unfold le_of in H.
    now rewrite Ead in H.
  - apply c_lt_le in Ebd.
    pose proof (c_le_trans _ _ _ Hab Ebd) as H. unfold le_of in H.
    now rewrite Ead in H.
Qed.

Lemma c_eq_r a b d : c a b = Eq -> c d a = c d b.
Proof.
  intros E. rewrite (c_antisym d a), (c_antisym d b).
  f_equal. now apply c_eq_l.
Qed.

Lemma c_lt_trans a b d : c a b = Lt -> c b d = Lt -> c a d = Lt.
Proof.
  intros E1 E2.
  pose proof (c_le_trans _ _ _ (c_lt_le _ _ E1) (c_lt_le _ _ E2)) as H.
  destruct (c a d) eqn:E; try reflexivity.
  - rewrite (c_eq_l a d b E), (c_antisym d b), E2 in E1. discriminate.
  - unfold le_of in H. now rewrite E in H.
Qed.
End CmpFacts.

Lemma CmpOk_lex {A} (c1 c2 : A -> A -> comparison) :
  CmpOk c1 -> CmpOk c2 -> CmpOk (fun a b => lex (c1 a b) (c2 a b)).
Proof.
  intros H1 H2. split.
  - intros a b. unfold lex.
    rewrite (c_antisym (c := c1) a b), (c_antisym (c := c2) a b).
    now destruct (c1 b a).
  - intros a b d. unfold le_of, lex.
    destruct (c1 a b) eqn:E1; try discriminate.
    + rewrite (c_eq_l c1 _ _ d E1). destruct (c1 b d); try discriminate; auto.
      apply (c_le_trans (c := c2)).
    + intros _. destruct (c1 b d) eqn:E2; try discriminate.
      * intros _. now rewrite <- (c_eq_r c1 _ _ a E2), E1.
      * intros _. now rewrite (c_lt_trans c1 _ _ _ E1 E2).
Qed.

(** ** [sort_values] *)

Section SortFacts.
Context {A : Type} (c : A -> A -> comparison).

Lemma sort_insert_perm x l : Permutation (sort_insert c x l) (x :: l).
Proof.
  induction l as [|y l IH]; simpl; [reflexivity|].
  destruct (cmp_leb (c x y)); [reflexivity|].
  rewrite IH. apply perm_swap.
Qed.

Lemma sort_values_perm l : Permutation (sort_values c l) l.
Proof.
  induction l as [|x l IH]; simpl; [reflexivity|].
  rewrite sort_insert_perm. now constructor.
Qed.

Lemma sort_values_In x l : In x (sort_values c l) <-> In x l.
Proof.
  split; apply Permutation_in;
    [apply sort_values_perm | symmetry; apply sort_values_perm].
Qed.

Lemma sort_values_length l : List.length (sort_values c l) = List.length l.
Proof. apply Permutation_length, sort_values_perm. Qed.

Lemma sort_insert_head x l :
  Forall (le_of c x) l -> sort_insert c x l = x :: l.
Proof.
  destruct l as [|y l]; simpl; [reflexivity|].
  intros H. inversion H as [|? ? Hxy _]; subst.
  unfold le_of in Hxy. now rewrite Hxy.
Qed.

Context `{!CmpOk c}.

Lemma sort_insert_sorted x l :
  StronglySorted (le_of c) l -> StronglySorted (le_of c) (sort_insert c x l).
Proof.
  induction l as [|y l IH]; simpl; intros Hs.
  - repeat constructor.
  - inversion Hs as [|? ? Hl Hy]; subst.
    destruct (cmp_leb (c x y)) eqn:E.
    + constructor; [assumption|]. constructor; [exact E|].
      eapply Forall_impl; [|exact Hy].
      intros z Hz. eapply c_le_trans; [exact E|exact Hz].
    + constructor; [now apply IH|].
      eapply Permutation_Forall; [symmetry; apply sort_insert_perm|].
      constructor; [|assumption].
      apply c_lt_le. now apply c_not_le.
Qed.

Lemma sort_values_sorted l : StronglySorted (le_of c) (sort_values c l).
Proof.
  induction l as [|x l IH]; simpl; [constructor|].
  now apply sort_insert_sorted.
Qed.

(** A frame already in order is returned as it is. *)
Lemma sort_values_id l : StronglySorted (le_of c) l -> sort_values c l = l.
Proof.
  induction l as [|x l IH]; simpl; [reflexivity|].
  intros Hs. inversion Hs; subst.
  rewrite IH by assumption. now apply sort_insert_head.
Qed.

Lemma sort_values_idem l : sort_values c (sort_values c l) = sort_values c l.
Proof. apply sort_values_id, sort_values_sorted. Qed.

(** Stability: selecting rows commutes with sorting. *)
Lemma filter_sort_insert p x l :
  StronglySorted (le_of c) l ->
  filter p (sort_insert c x l)
  = if p x then sort_insert c x (filter p l) else filter p l.
Proof.
  induction l as [|y l IH]; simpl; intros Hs.
  - now destruct (p x).
  - inversion Hs as [|? ? Hl Hy]; subst.
    destruct (cmp_leb (c x y)) eqn:E; simpl.
    + destruct (p x); [|reflexivity].
      symmetry. apply sort_insert_head.
      assert (Hall : Forall (le_of c x) (y :: l)).
      { constructor; [exact E|].
        eapply Forall_impl; [|exact Hy].
        intros z Hz. eapply c_le_trans; [exact E|exact Hz]. }
      change (Forall (le_of c x) (filter p (y :: l))).
      rewrite Forall_forall in *. intros z Hz.
      apply Hall. now apply filter_In in Hz.
    + rewrite IH by assumption.
      destruct (p y), (p x); simpl; try reflexivity.
      now rewrite E.
Qed.

Lemma filter_sort_values p l :
  filter p (sort_values c l) = sort_values c (filter p l).
Proof.
  induction l as [|x l IH]; simpl; [reflexivity|].
  rewrite filter_sort_insert by apply sort_values_sorted.
  rewrite IH. now destruct (p x).
Qed.

(** Two sorted arrangements of the same rows are equal when no two
    different rows tie. *)
Lemma sorted_perm_eq l1 l2 :
  (forall x y, In x l1 -> In y l1 -> c x y = Eq -> x = y) ->
  StronglySorted (le_of c) l1 -> StronglySorted (le_of c) l2 ->
  Permutation l1 l2 -> l1 = l2.
Proof.
  revert l2.
  induction l1 as [|x l1 IH]; intros l2 Hinj H1 H2 HP.
  - apply Permutation_nil in HP. now subst.
  - destruct l2 as [|y l2].
    + symmetry in HP. now apply Permutation_nil in HP.
    + inversion H1 as [|? ? Hs1 Hx]; subst.
      inversion H2 as [|? ? Hs2 Hy]; subst.
      assert (Hxy : x = y).
      { assert (Hin1 : In y (x :: l1))
          by (eapply Permutation_in; [symmetry; exact HP|now left]).
        assert (Hin2 : In x (y :: l2))
          by (eapply Permutation_in; [exact HP|now left]).
        destruct Hin1 as [->|Hin1]; [reflexivity|].
        destruct Hin2 as [->|Hin2]; [reflexivity|].
        rewrite Forall_forall in Hx, Hy.
        apply Hinj; [now left|now right|].
        apply (c_le_le_eq c); auto. }
      subst y. f_equal.
      apply IH; auto.
      * intros a b Ha Hb. apply Hinj; now right.
      * eapply Permutation_cons_inv; exact HP.
Qed.

Lemma sort_values_perm_eq l1 l2 :
  (forall x y, In x l1 -> In y l1 -> c x y = Eq -> x = y) ->
  Permutation l1 l2 -> sort_values c l1 = sort_values c l2.
Proof.
  intros Hinj HP. apply sorted_perm_eq.
  - intros x y Hx Hy. apply Hinj; now apply sort_values_In.
  - apply sort_values_sorted.
  - apply sort_values_sorted.
  - rewrite !sort_values_perm. exact HP.
Qed.
End SortFacts.

Lemma sort_values_map {A B} (f : A -> B) (cB : B -> B -> comparison) l :
  sort_values cB (map f l) = map f (sort_values (fun a b => cB (f a) (f b)) l).
Proof.
  induction l as [|x l IH]; simpl; [reflexivity|].
  rewrite IH. generalize (sort_values (fun a b => cB (f a) (f b)) l).
  intros m. induction m as [|y m IHm]; simpl; [reflexivity|].
  destruct (cmp_leb (cB (f x) (f y))); simpl; [reflexivity|].
  now rewrite IHm.
Qed.

(** ** [groupby] *)

Section KeyFacts.
Context {K : Type} `{OrdLaws K}.

Lemma key_eqb_eq (a b : K) : key_eqb a b = true <-> a = b.
Proof.
  unfold key_eqb, cmp_eqb. split.
  - destruct (cmp a b) eqn:E; try discriminate. intros _. now apply cmp_eq.
  - intros ->. now rewrite cmp_refl.
Qed.

Lemma key_eqb_refl (a : K) : key_eqb a a = true.
Proof. now apply key_eqb_eq. Qed.

Lemma key_eqb_neq (a b : K) : key_eqb a b = false <-> a <> b.
Proof.
  rewrite <- key_eqb_eq. destruct (key_eqb a b); split; congruence.
Qed.

Lemma lt_of_irrefl (a : K) : ~ lt_of a a.
Proof. unfold lt_of. now rewrite cmp_refl. Qed.

Lemma lt_of_trans (a b d : K) : lt_of a b -> lt_of b d -> lt_of a d.
Proof. apply cmp_lt_trans. Qed.

Lemma le_lt_or_eq (a b : K) : le_of cmp a b -> lt_of a b \/ a = b.
Proof.
  unfold le_of, lt_of. destruct (cmp a b) eqn:E; try discriminate; auto.
  right. now apply cmp_eq.
Qed.

Lemma lt_le_trans (a b d : K) : lt_of a b -> le_of cmp b d -> lt_of a d.
Proof.
  intros Hab Hbd. destruct (le_lt_or_eq _ _ Hbd) as [Hlt| ->]; auto.
  eapply lt_of_trans; eassumption.
Qed.

Lemma key_insert_In k k0 ks : In k (key_insert k0 ks) <-> k = k0 \/ In k ks.
Proof.
  induction ks as [|k' ks IH]; simpl.
  - intuition.
  - destruct (cmp k0 k') eqn:E; simpl.
    + apply cmp_eq in E. subst. intuition.
    + intuition.
    + rewrite IH. intuition.
Qed.

Lemma key_insert_sorted k ks :
  StronglySorted lt_of ks -> StronglySorted lt_of (key_insert k ks).
Proof.
  induction ks as [|k' ks IH]; simpl; intros Hs.
  - repeat constructor.
  - inversion Hs as [|? ? Hks Hk']; subst.
    destruct (cmp k k') eqn:E.
    + assumption.
    + constructor; [assumption|]. constructor; [exact E|].
      eapply Forall_impl; [|exact Hk'].
      intros z Hz. eapply lt_of_trans; [exact E|exact Hz].
    + constructor; [now apply IH|].
      rewrite Forall_forall in *. intros z Hz.
      apply key_insert_In in Hz. destruct Hz as [->|Hz]; auto.
      unfold lt_of. now rewrite cmp_antisym, E.
Qed.

(** Inserting a key that is not above any key of the list. *)
Lemma key_insert_least k ks :
  Forall (le_of cmp k) ks ->
  key_insert k ks = match ks with
                    | [] => [k]
                    | k' :: _ => if key_eqb k k' then ks else k :: ks
                    end.
Proof.
  destruct ks as [|k' ks]; simpl; [reflexivity|].
  intros Hall. inversion Hall as [|? ? Hle _]; subst.
  unfold le_of in Hle. unfold key_eqb.
  now destruct (cmp k k').
Qed.

Lemma sorted_lt_NoDup (ks : list K) : StronglySorted lt_of ks -> NoDup ks.
Proof.
  induction 1 as [|k ks Hs IH Hk]; constructor; auto.
  intros Hin. rewrite Forall_forall in Hk.
  now apply Hk, lt_of_irrefl in Hin.
Qed.

(** A strictly increasing list is determined by its elements. *)
Lemma sorted_lt_ext (l1 l2 : list K) :
  StronglySorted lt_of l1 -> StronglySorted lt_of l2 ->
  (forall k, In k l1 <-> In k l2) -> l1 = l2.
Proof.
  intros H1. revert l2.
  induction H1 as [|a l1 Hs1 IH Ha]; intros l2 H2 Hiff.
  - destruct l2 as [|b l2]; [reflexivity|].
    exfalso. apply (Hiff b). now left.
  - destruct H2 as [|b l2 Hs2 Hb].
    + exfalso. apply (Hiff a). now left.
    + rewrite Forall_forall in Ha, Hb.
      assert (Hab : a = b).
      { destruct (proj1 (Hiff a) (or_introl eq_refl)) as [E|Hin]; [now subst|].
        destruct (proj2 (Hiff b) (or_introl eq_refl)) as [E|Hin']; [now subst|].
        exfalso. eapply lt_of_irrefl, lt_of_trans; [apply Ha|apply Hb]; eassumption. }
      subst b. f_equal. apply IH; [assumption|].
      intros k. split; intros Hk.
      * destruct (proj1 (Hiff k) (or_intror Hk)) as [E|Hin]; [|assumption].
        subst k. now apply Ha, lt_of_irrefl in Hk.
      * destruct (proj2 (Hiff k) (or_intror Hk)) as [E|Hin]; [|assumption].
        subst k. now apply Hb, lt_of_irrefl in Hk.
Qed.

Lemma sorted_lt_filter (p : K -> bool) ks :
  StronglySorted lt_of ks -> StronglySorted lt_of (filter p ks).
Proof.
  induction 1 as [|k ks Hs IH Hk]; simpl; [constructor|].
  destruct (p k); [|assumption].
  constructor; [assumption|].
  rewrite Forall_forall in *. intros z Hz. apply Hk.
  now apply filter_In in Hz.
Qed.
End KeyFacts.

Section GroupFacts.
Context {A K : Type} `{OrdLaws K} (key : A -> K).

Lemma group_keys_In k l :
  In k (group_keys key l) <-> exists r, In r l /\ key r = k.
Proof.
  unfold group_keys. induction l as [|x l IH]; simpl.
  - split; [tauto|]. now intros (r & [] & _).
  - rewrite key_insert_In, IH. split.
    + intros [->|(r & Hr & Hk)]; eauto.
    + intros (r & [->|Hr] & Hk); eauto.
Qed.

Lemma group_keys_sorted l : StronglySorted lt_of (group_keys key l).
Proof.
  unfold group_keys. induction l as [|x l IH]; simpl; [constructor|].
  now apply key_insert_sorted.
Qed.

Lemma group_keys_NoDup l : NoDup (group_keys key l).
Proof. apply sorted_lt_NoDup, group_keys_sorted. Qed.

Lemma get_group_In k r l : In r (get_group key k l) <-> In r l /\ key r = k.
Proof. unfold get_group. now rewrite filter_In, key_eqb_eq. Qed.

Lemma get_group_app k l1 l2 :
  get_group key k (l1 ++ l2) = get_group key k l1 ++ get_group key k l2.
Proof. apply filter_app. Qed.

Lemma get_group_cons_eq k x l :
  key x = k -> get_group key k (x :: l) = x :: get_group key k l.
Proof. intros <-. unfold get_group. simpl. now rewrite key_eqb_refl. Qed.

Lemma get_group_cons_neq k x l :
  key x <> k -> get_group key k (x :: l) = get_group key k l.
Proof.
  intros Hne. unfold get_group. simpl.
  now rewrite (proj2 (key_eqb_neq _ _) Hne).
Qed.

Lemma get_group_none k l :
  (forall r, In r l -> key r <> k) -> get_group key k l = [].
Proof.
  induction l as [|x l IH]; intros Hn; [reflexivity|].
  rewrite get_group_cons_neq by (apply Hn; now left).
  apply IH. intros r Hr. apply Hn. now right.
Qed.

Lemma get_group_nonempty k l :
  In k (group_keys key l) -> get_group key k l <> [].
Proof.
  intros Hin. apply group_keys_In in Hin. destruct Hin as (r & Hr & Hk).
  intros E. assert (Hin : In r (get_group key k l))
    by now apply get_group_In.
  now rewrite E in Hin.
Qed.

Lemma chunks_nonempty l : Forall (fun c => c <> []) (chunks key l).
Proof.
  induction l as [|x l IH]; simpl; [constructor|].
  destruct (chunks key l) as [|[|y c'] cs] eqn:E.
  - repeat constructor. discriminate.
  - repeat constructor. discriminate.
  - inversion IH; subst.
    destruct (key_eqb (key x) (key y)); repeat constructor;
      try discriminate; assumption.
Qed.

Lemma chunks_concat l : List.concat (chunks key l) = l.
Proof.
  induction l as [|x l IH]; simpl; [reflexivity|].
  pose proof (chunks_nonempty l) as Hne.
  destruct (chunks key l) as [|[|y c'] cs] eqn:E; simpl in *.
  - now rewrite <- IH.
  - inversion Hne; congruence.
  - destruct (key_eqb (key x) (key y)); simpl; now rewrite <- IH.
Qed.

Lemma chunks_head y l :
  exists c cs, chunks key (y :: l) = (y :: c) :: cs.
Proof.
  simpl. destruct (chunks key l) as [|[|z c'] cs]; eauto.
  destruct (key_eqb (key y) (key z)); eauto.
Qed.

(** The groups of a frame in key order are its blocks. *)
Lemma groups_sorted_chunks l :
  StronglySorted (le_of cmp) (map key l) ->
  map (fun k => get_group key k l) (group_keys key l) = chunks key l
  /\ match l with
     | [] => True
     | y :: _ => exists rest, group_keys key l = key y :: rest
     end.
Proof.
  induction l as [|x l IH]; [now split|].
  intros Hs. simpl in Hs. inversion Hs as [|? ? Hsl Hx]; subst.
  destruct (IH Hsl) as [IHmap IHhead]. clear IH.
  assert (Hleast : Forall (le_of cmp (key x)) (group_keys key l)).
  { rewrite Forall_forall in *. intros k Hk.
    apply group_keys_In in Hk. destruct Hk as (r & Hr & <-).
    apply Hx. now apply in_map. }
  assert (Hkeys : group_keys key (x :: l) = key_insert (key x) (group_keys key l))
    by reflexivity.
  rewrite Hkeys, (key_insert_least _ _ Hleast).
  destruct l as [|y l].
  - cbn [map group_keys fold_right chunks]. split; [|eauto].
    now rewrite get_group_cons_eq by reflexivity.
  - destruct IHhead as (rest & Hrest).
    pose proof (group_keys_sorted (y :: l)) as Hsk.
    rewrite Hrest in IHmap, Hsk, Hleast |- *.
    pose proof (Forall_inv Hleast) as Hle.
    pose proof (StronglySorted_inv Hsk) as [_ Hy].
    rewrite Forall_forall in Hy.
    destruct (chunks_head y l) as (c' & cs & Hch).
    change (chunks key (x :: y :: l)) with
      (match chunks key (y :: l) with
       | (z :: c0) :: cs0 =>
           if key_eqb (key x) (key z) then (x :: z :: c0) :: cs0
           else [x] :: (z :: c0) :: cs0
       | _ => [[x]]
       end).
    rewrite Hch in IHmap |- *. cbn [map] in IHmap.
    assert (Hg : get_group key (key y) (y :: l) = y :: c') by congruence.
    assert (Hm : map (fun k => get_group key k (y :: l)) rest = cs)
      by congruence.
    clear IHmap.
    assert (Hrest_map : forall k0, In k0 rest ->
              get_group key k0 (x :: y :: l) = get_group key k0 (y :: l)).
    { intros k0 Hk0. apply get_group_cons_neq.
      intros E. rewrite <- E in Hk0. apply Hy in Hk0.
      eapply lt_of_irrefl, lt_le_trans; eassumption. }
    destruct (key_eqb (key x) (key y)) eqn:E.
    + apply key_eqb_eq in E. split; [|rewrite E; eauto].
      cbn [map]. rewrite get_group_cons_eq by exact E. rewrite Hg.
      f_equal. rewrite <- Hm. apply map_ext_in. exact Hrest_map.
    + apply key_eqb_neq in E. split; [|eauto].
      cbn [map]. rewrite get_group_cons_eq by reflexivity.
      rewrite (get_group_cons_neq (key y) x) by exact E.
      rewrite Hg. f_equal.
      * f_equal. apply get_group_none.
        intros r Hr Er.
        destruct (le_lt_or_eq _ _ Hle) as [Hlt|E']; [|congruence].
        assert (Hxr : le_of cmp (key y) (key r)).
        { destruct Hr as [->|Hr]; [unfold le_of; now rewrite cmp_refl|].
          pose proof (StronglySorted_inv Hsl) as [_ Hyl].
          rewrite Forall_forall in Hyl. apply Hyl. now apply in_map. }
        rewrite Er in Hxr.
        eapply lt_of_irrefl, lt_le_trans; eassumption.
      * f_equal. rewrite <- Hm. apply map_ext_in. exact Hrest_map.
Qed.
End GroupFacts.

(** ** Run identifiers *)

Lemma cumsum_from_length acc s : List.length (cumsum_from acc s) = List.length s.
Proof.
  revert acc. induction s as [|b s IH]; intros acc; simpl; [reflexivity|].
  now rewrite IH.
Qed.

Lemma shift1_length {A} (s : list A) : List.length (shift1 s) = List.length s.
Proof.
  unfold shift1. rewrite length_firstn. simpl. rewrite length_map. lia.
Qed.

Lemma change_count_length s : List.length (change_count s) = List.length s.
Proof.
  unfold change_count, cumsum, series_ne.
  rewrite cumsum_from_length, length_map, length_combine, shift1_length. lia.
Qed.

(** The identifiers of a series whose shifted copy starts with [p]. *)
Lemma shifted_ids_step (G : list run_id_row) p acc :
  map run_id G
  = cumsum_from acc
      (series_ne (map row_flag G)
         (firstn (List.length (map row_flag G)) (p :: map Some (map row_flag G)))) ->
  Sorted id_step G
  /\ match G with
     | [] => True
     | x :: _ =>
         run_id x = acc + match p with
                          | Some b => if Bool.eqb (row_flag x) b then 0 else 1
                          | None => 1
                          end
     end.
Proof.
  revert p acc. induction G as [|x G IH]; intros p acc Hids.
  - split; constructor.
  - cbn [map List.length firstn combine series_ne cumsum_from] in Hids.
    unfold series_ne in Hids.
    cbn [map List.length firstn combine cumsum_from fst snd] in Hids.
    injection Hids as Hx HG.
    fold (series_ne (map row_flag G)
            (firstn (List.length (map row_flag G))
                    (Some (row_flag x) :: map Some (map row_flag G)))) in HG.
    rewrite <- Hx in HG.
    destruct (IH _ _ HG) as [Hs Hhd].
    split.
    + constructor; [exact Hs|].
      destruct G as [|y G]; constructor.
      unfold id_step. exact Hhd.
    + rewrite Hx. f_equal. destruct p as [b|]; [|reflexivity].
      now destruct (Bool.eqb (row_flag x) b).
Qed.

Lemma change_count_step (G : list run_id_row) :
  map run_id G = change_count (map row_flag G) -> Sorted id_step G.
Proof.
  intros Hids. eapply proj1, (shifted_ids_step G None 0). exact Hids.
Qed.

Lemma skipn_nth_cons {A} (d : A) n (l : list A) :
  n < List.length l -> skipn n l = nth n l d :: skipn (S n) l.
Proof.
  revert l. induction n as [|n IH]; intros [|x l]; simpl; try lia.
  - reflexivity.
  - intros Hn. apply IH. lia.
Qed.

Section AssignRunId.
Variable df : list flagged_row.

Lemma assign_from_flagged before rest :
  map flagged (assign_run_id_from df before rest) = rest.
Proof.
  revert before. induction rest as [|r rest IH]; intros before; simpl;
    [reflexivity|].
  now rewrite IH.
Qed.

Lemma get_group_assign_from g before rest :
  map flagged (get_group row_group g (assign_run_id_from df before rest))
  = get_group flagged_group g rest.
Proof.
  revert before. induction rest as [|r rest IH]; intros before;
    [reflexivity|].
  cbn [assign_run_id_from].
  destruct (key_eqb (flagged_group r) g) eqn:E.
  - apply key_eqb_eq in E.
    rewrite !get_group_cons_eq by exact E.
    cbn [map flagged]. now rewrite IH.
  - apply key_eqb_neq in E.
    rewrite !get_group_cons_neq by exact E.
    apply IH.
Qed.

(** The rows of a group receive, in order, the values of the lambda
    applied to the group's flag series. *)
Lemma assign_from_ids g before rest :
  df = before ++ rest ->
  map run_id (get_group row_group g (assign_run_id_from df before rest))
  = skipn (List.length (get_group flagged_group g before))
          (change_count (map is_full_oos (get_group flagged_group g df))).
Proof.
  revert before. induction rest as [|r rest IH]; intros before Hdf.
  - cbn. rewrite skipn_all2; [reflexivity|].
    rewrite change_count_length, length_map, Hdf, app_nil_r. lia.
  - assert (Hdf' : df = (before ++ [r]) ++ rest)
      by now rewrite <- app_assoc.
    specialize (IH _ Hdf').
    cbn [assign_run_id_from].
    destruct (key_eqb (flagged_group r) g) eqn:E.
    + apply key_eqb_eq in E.
      rewrite get_group_cons_eq by exact E.
      cbn [map run_id]. rewrite IH, E.
      rewrite get_group_app, length_app.
      rewrite (get_group_cons_eq flagged_group g r []) by exact E.
      cbn [get_group filter List.length].
      rewrite Nat.add_1_r. symmetry. apply skipn_nth_cons.
      rewrite change_count_length, length_map, Hdf, get_group_app, length_app.
      rewrite get_group_cons_eq by exact E. simpl. lia.
    + apply key_eqb_neq in E.
      rewrite get_group_cons_neq by exact E.
      rewrite IH, get_group_app, length_app.
      rewrite (get_group_cons_neq flagged_group g r []) by exact E.
      cbn. now rewrite Nat.add_0_r.
Qed.
End AssignRunId.

Lemma assign_run_id_flagged df : map flagged (assign_run_id df) = df.
Proof. apply assign_from_flagged. Qed.

Lemma assign_run_id_group df g :
  map flagged (get_group row_group g (assign_run_id df))
  = get_group flagged_group g df.
Proof. apply get_group_assign_from. Qed.

Lemma map_row_flag (G : list run_id_row) :
  map row_flag G = map is_full_oos (map flagged G).
Proof. now rewrite map_map. Qed.

Lemma assign_run_id_ids df g :
  let G := get_group row_group g (assign_run_id df) in
  map run_id G = change_count (map row_flag G).
Proof.
  intros G. unfold G, assign_run_id.
  rewrite (assign_from_ids df g [] df eq_refl).
  fold (assign_run_id df).
  now rewrite map_row_flag, assign_run_id_group.
Qed.

Lemma assign_run_id_steps df g :
  Sorted id_step (get_group row_group g (assign_run_id df)).
Proof. apply change_count_step, assign_run_id_ids. Qed.

(** ** The run table, group by group *)

Lemma flat_map_map {A B C} (f : B -> list C) (h : A -> B) l :
  flat_map f (map h l) = flat_map (fun x => f (h x)) l.
Proof. induction l as [|x l IH]; simpl; [reflexivity|]. now rewrite IH. Qed.

Lemma filter_flat_map {A B} (p : B -> bool) (f : A -> list B) l :
  filter p (flat_map f l) = flat_map (fun x => filter p (f x)) l.
Proof.
  induction l as [|x l IH]; simpl; [reflexivity|].
  now rewrite filter_app, IH.
Qed.

Lemma flat_map_filter {A B} (p : A -> bool) (f : A -> list B) l :
  flat_map (fun x => if p x then f x else []) l = flat_map f (filter p l).
Proof.
  induction l as [|x l IH]; simpl; [reflexivity|].
  rewrite IH. now destruct (p x).
Qed.

Lemma make_runs_unfold D :
  make_runs D
  = flat_map (fun k => option_list (agg_run k (get_group row_run_key k D)))
             (group_keys row_run_key D).
Proof. unfold make_runs, groupby. now rewrite flat_map_map. Qed.

Lemma agg_run_group k rows r : agg_run k rows = Some r -> run_group r = fst k.
Proof.
  destruct k as [[a b] i], rows as [|x rest]; simpl; [discriminate|].
  intros E. injection E as <-. reflexivity.
Qed.

Lemma agg_run_id k rows r : agg_run k rows = Some r -> run_run_id r = snd k.
Proof.
  destruct rows as [|x rest]; simpl; [discriminate|].
  intros E. injection E as <-. reflexivity.
Qed.

Lemma agg_run_days k rows r :
  agg_run k rows = Some r -> days r = List.length rows.
Proof.
  destruct rows as [|x rest]; simpl; [discriminate|].
  intros E. injection E as <-. reflexivity.
Qed.

Lemma agg_run_flag k rows r :
  agg_run k rows = Some r -> run_is_full_oos r = chunk_flag rows.
Proof.
  destruct rows as [|x rest]; simpl; [discriminate|].
  intros E. injection E as <-. reflexivity.
Qed.

Lemma agg_run_some k rows : rows <> [] -> exists r, agg_run k rows = Some r.
Proof. destruct rows as [|x rest]; [congruence|]. simpl. eauto. Qed.

Lemma run_key_eqb (r : run_id_row) g i :
  key_eqb (row_run_key r) (g, i)
  = key_eqb (row_group r) g && key_eqb (run_id r) i.
Proof.
  unfold key_eqb, row_run_key.
  change (cmp (row_group r, run_id r) (g, i))
    with (lex (cmp (row_group r) g) (cmp (run_id r) i)).
  unfold lex. destruct (cmp (row_group r) g); reflexivity.
Qed.

Lemma get_group_run_key D g i :
  get_group row_run_key (g, i) D
  = get_group run_id i (get_group row_group g D).
Proof.
  unfold get_group. induction D as [|r D IH]; simpl; [reflexivity|].
  rewrite run_key_eqb.
  destruct (key_eqb (row_group r) g); simpl; [|exact IH].
  destruct (key_eqb (run_id r) i); now rewrite IH.
Qed.

Lemma pair_lt_snd (g : group_key) (i j : nat) :
  lt_of (g, i) (g, j) <-> lt_of i j.
Proof.
  unfold lt_of.
  change (cmp (g, i) (g, j)) with (lex (cmp g g) (cmp i j)).
  now rewrite cmp_refl.
Qed.

Lemma run_keys_of_group D g :
  filter (fun k => key_eqb (fst k) g) (group_keys row_run_key D)
  = map (pair g) (group_keys run_id (get_group row_group g D)).
Proof.
  apply sorted_lt_ext.
  - apply sorted_lt_filter, group_keys_sorted.
  - pose proof (group_keys_sorted run_id (get_group row_group g D)) as Hs.
    induction Hs as [|i ids Hs IH Hi]; simpl; constructor; auto.
    rewrite Forall_forall in *. intros k Hk.
    apply in_map_iff in Hk. destruct Hk as (j & <- & Hj).
    apply pair_lt_snd. now apply Hi.
  - intros [g' i]. rewrite filter_In, in_map_iff, group_keys_In. cbn [fst].
    rewrite key_eqb_eq. split.
    + intros [(r & Hr & Hk) ->]. exists i. split; [reflexivity|].
      apply group_keys_In. exists r.
      unfold row_run_key in Hk. injection Hk as Hg Hi.
      split; [|exact Hi]. now apply get_group_In.
    + intros (j & E & Hj). injection E as <- <-.
      apply group_keys_In in Hj. destruct Hj as (r & Hr & Hi).
      apply get_group_In in Hr. destruct Hr as [Hr Hg].
      split; [|reflexivity]. exists r. split; [exact Hr|].
      unfold row_run_key. now rewrite Hg, Hi.
Qed.

(** The rows of the run table of one group: one per run identifier of
    the group's rows. *)
Lemma runs_of_group D g :
  get_group run_group g (make_runs D)
  = flat_map (fun i => option_list
                         (agg_run (g, i)
                            (get_group run_id i (get_group row_group g D))))
             (group_keys run_id (get_group row_group g D)).
Proof.
  rewrite make_runs_unfold. unfold get_group at 1.
  rewrite filter_flat_map.
  rewrite (flat_map_ext _
             (fun k => if key_eqb (fst k) g
                       then option_list (agg_run k (get_group row_run_key k D))
                       else [])).
  - rewrite flat_map_filter, run_keys_of_group, flat_map_map.
    apply flat_map_ext. intros i. now rewrite get_group_run_key.
  - intros k. destruct (agg_run k (get_group row_run_key k D)) as [r|] eqn:E;
      simpl; [|now destruct (key_eqb (fst k) g)].
    now rewrite (agg_run_group _ _ _ E).
Qed.

Lemma nat_le_of (a b : nat) : le_of cmp a b <-> a <= b.
Proof.
  unfold le_of. cbn [cmp Ord_nat].
  destruct (Nat.compare_spec a b); simpl; split; intros; try lia; congruence.
Qed.

Lemma Z_le_of (a b : Z) : le_of cmp a b <-> (a <= b)%Z.
Proof.
  unfold le_of. cbn [cmp Ord_Z].
  destruct (Z.compare_spec a b); simpl; split; intros; try lia; congruence.
Qed.

Lemma id_step_le a b : id_step a b -> run_id a <= run_id b.
Proof. unfold id_step. lia. Qed.

Lemma id_steps_sorted G :
  Sorted id_step G -> StronglySorted (le_of cmp) (map run_id G).
Proof.
  intros Hs.
  assert (Hle : Sorted (fun a b => run_id a <= run_id b) G).
  { induction Hs as [|x G Hs IH Hhd]; constructor; auto.
    destruct Hhd; constructor. now apply id_step_le. }
  apply Sorted_StronglySorted in Hle; [|intros a b d; lia].
  clear Hs.
  induction Hle as [|x G Hs' IH Hx]; cbn [map]; constructor; auto.
  rewrite Forall_forall in *. intros i Hi.
  apply in_map_iff in Hi. destruct Hi as (y & <- & Hy).
  apply nat_le_of. now apply Hx.
Qed.

Lemma group_runs_chunks D g :
  Sorted id_step (get_group row_group g D) ->
  Forall2 (run_of_chunk g)
          (get_group run_group g (make_runs D))
          (chunks run_id (get_group row_group g D)).
Proof.
  intros Hs. rewrite runs_of_group.
  set (G := get_group row_group g D) in *.
  destruct (groups_sorted_chunks run_id G (id_steps_sorted G Hs)) as [<- _].
  assert (Hne : forall k, In k (group_keys run_id G) ->
                          get_group run_id k G <> [])
    by (intros k; apply get_group_nonempty).
  induction (group_keys run_id G) as [|i ids IH]; simpl; [constructor|].
  destruct (agg_run_some (g, i) (get_group run_id i G)) as (r & Hr).
  { apply Hne. now left. }
  rewrite Hr. simpl. constructor.
  - exists i. split; [exact Hr|].
    apply Forall_forall. intros y Hy. now apply get_group_In in Hy.
  - apply IH. intros k Hk. apply Hne. now right.
Qed.

Lemma chunks_steps G :
  Sorted id_step G ->
  Forall (fun c => Forall (fun y => row_flag y = chunk_flag c) c)
         (chunks run_id G)
  /\ Sorted (fun c1 c2 => chunk_flag c1 <> chunk_flag c2) (chunks run_id G).
Proof.
  induction G as [|x G IH]; intros Hs; [split; constructor|].
  inversion Hs as [|? ? Hs' Hhd]; subst.
  destruct (IH Hs') as [Hu Halt]. clear IH.
  destruct G as [|y G].
  - simpl. split; repeat constructor.
  - destruct (chunks_head run_id y G) as (c' & cs & Hch).
    change (chunks run_id (x :: y :: G)) with
      (match chunks run_id (y :: G) with
       | (z :: c0) :: cs0 =>
           if key_eqb (run_id x) (run_id z) then (x :: z :: c0) :: cs0
           else [x] :: (z :: c0) :: cs0
       | _ => [[x]]
       end).
    rewrite Hch in *.
    inversion Hhd as [|? ? Hxy]; subst. unfold id_step in Hxy.
    inversion Hu as [|? ? Hc Hcs]; subst.
    inversion Halt as [|? ? Hs'' Hhd']; subst.
    destruct (key_eqb (run_id x) (run_id y)) eqn:E.
    + apply key_eqb_eq in E.
      assert (Hf : row_flag y = row_flag x).
      { destruct (Bool.eqb (row_flag y) (row_flag x)) eqn:Eb;
          [now apply Bool.eqb_prop in Eb|lia]. }
      split.
      * constructor; [|assumption].
        constructor; [reflexivity|].
        cbn [chunk_flag] in *. rewrite <- Hf. exact Hc.
      * constructor; [assumption|].
        destruct Hhd' as [|c2 cs2 Hne]; constructor.
        cbn [chunk_flag] in *. now rewrite <- Hf.
    + apply key_eqb_neq in E.
      assert (Hf : row_flag x <> row_flag y).
      { intros Ef. rewrite Ef, Bool.eqb_reflx in Hxy. lia. }
      split.
      * constructor; [|assumption]. repeat constructor.
      * constructor; [assumption|]. constructor. exact Hf.
Qed.

Lemma series_min_spec s d :
  In (series_min d s) (d :: s)
  /\ (series_min d s <= d)%Z
  /\ Forall (fun x => (series_min d s <= x)%Z) s.
Proof.
  unfold series_min. revert d.
  induction s as [|x s IH]; intros d; simpl.
  - repeat split; [now left|lia|constructor].
  - destruct (IH (Z.min d x)) as (Hin & Hle & Hall).
    repeat split.
    + destruct Hin as [E|Hin]; [|now right; right].
      rewrite <- E. destruct (Z.min_spec d x) as [[_ ->]|[_ ->]]; auto.
    + lia.
    + constructor; [lia|exact Hall].
Qed.

Lemma series_max_spec s d :
  In (series_max d s) (d :: s)
  /\ (d <= series_max d s)%Z
  /\ Forall (fun x => (x <= series_max d s)%Z) s.
Proof.
  unfold series_max. revert d.
  induction s as [|x s IH]; intros d; simpl.
  - repeat split; [now left|lia|constructor].
  - destruct (IH (Z.max d x)) as (Hin & Hle & Hall).
    repeat split.
    + destruct Hin as [E|Hin]; [|now right; right].
      rewrite <- E. destruct (Z.max_spec d x) as [[_ ->]|[_ ->]]; auto.
    + lia.
    + constructor; [lia|exact Hall].
Qed.

Lemma run_of_chunk_covers g r c :
  run_of_chunk g r c ->
  Forall (fun y => row_flag y = chunk_flag c) c ->
  run_covers r c /\ run_group r = g /\ run_is_full_oos r = chunk_flag c.
Proof.
  intros (i & Hagg & Hid) Hflag.
  pose proof (agg_run_group _ _ _ Hagg) as Hg.
  pose proof (agg_run_id _ _ _ Hagg) as Hi.
  pose proof (agg_run_days _ _ _ Hagg) as Hd.
  pose proof (agg_run_flag _ _ _ Hagg) as Hf.
  cbn [fst snd] in Hg, Hi.
  split; [|now split].
  destruct c as [|x rest]; [discriminate|].
  cbn [agg_run] in Hagg. injection Hagg as Hr.
  destruct (series_min_spec (map row_dt rest) (row_dt x)) as (Hmin & Hminx & Hminr).
  destruct (series_max_spec (map row_dt rest) (row_dt x)) as (Hmax & Hmaxx & Hmaxr).
  assert (Hs : start_dt r = series_min (row_dt x) (map row_dt rest))
    by now rewrite <- Hr.
  assert (He : end_dt r = series_max (row_dt x) (map row_dt rest))
    by now rewrite <- Hr.
  unfold run_covers. rewrite Hs, He.
  repeat split; try assumption; try discriminate.
  rewrite Forall_forall in Hid, Hflag, Hminr, Hmaxr.
  apply Forall_forall. intros y Hy.
  repeat split.
  - rewrite Hi. now apply Hid.
  - rewrite Hf. now apply Hflag.
  - destruct Hy as [<-|Hy]; [assumption|]. apply Hminr. now apply in_map.
  - destruct Hy as [<-|Hy]; [assumption|]. apply Hmaxr. now apply in_map.
Qed.

Lemma Forall2_Sorted {A B} (R : A -> B -> Prop) (P : A -> A -> Prop)
      (Q : B -> B -> Prop) l1 l2 :
  (forall a b a' b', R a a' -> R b b' -> Q a' b' -> P a b) ->
  Forall2 R l1 l2 -> Sorted Q l2 -> Sorted P l1.
Proof.
  intros HPQ HF. induction HF as [|a a' l1 l2 Ha HF IH]; intros Hs;
    [constructor|].
  inversion Hs as [|? ? Hs' Hhd]; subst.
  constructor; [now apply IH|].
  destruct HF as [|b b' l1 l2 Hb HF]; constructor.
  inversion Hhd; subst. eapply HPQ; eassumption.
Qed.

Lemma Forall2_Forall_r {A B} (R : A -> B -> Prop) (P : B -> Prop)
      (R' : A -> B -> Prop) l1 l2 :
  (forall a b, R a b -> P b -> R' a b) ->
  Forall2 R l1 l2 -> Forall P l2 -> Forall2 R' l1 l2.
Proof.
  intros HR HF. induction HF as [|a b l1 l2 Hab HF IH]; intros HP;
    [constructor|].
  inversion HP; subst. constructor; auto.
Qed.

(** The run table of one group, laid against the group's rows. *)
Lemma group_segmentation D g :
  Sorted id_step (get_group row_group g D) ->
  let Rg := get_group run_group g (make_runs D) in
  let cs := chunks run_id (get_group row_group g D) in
  Forall2 (fun r c => run_covers r c /\ run_is_full_oos r = chunk_flag c) Rg cs
  /\ alternating (map run_is_full_oos Rg).
Proof.
  intros Hs Rg cs.
  pose proof (group_runs_chunks D g Hs) as HF. fold Rg cs in HF.
  destruct (chunks_steps _ Hs) as [Hu Halt]. fold cs in Hu, Halt.
  assert (HF' : Forall2 (fun r c => run_covers r c
                                    /\ run_is_full_oos r = chunk_flag c) Rg cs).
  { eapply Forall2_Forall_r; [|exact HF|exact Hu].
    intros r c Hrc Hc.
    destruct (run_of_chunk_covers g r c Hrc Hc) as (H1 & _ & H3). now split. }
  split; [exact HF'|].
  unfold alternating.
  assert (Hmap : Sorted (fun r1 r2 => run_is_full_oos r1 <> run_is_full_oos r2) Rg).
  { eapply Forall2_Sorted; [|exact HF'|exact Halt].
    intros a b a' b' [_ Ha] [_ Hb] Hne. now rewrite Ha, Hb. }
  clear -Hmap. induction Hmap as [|r l Hs IH Hhd]; simpl; constructor; auto.
  destruct Hhd; constructor; assumption.
Qed.

(** ** The tables [calc_full_oos_streaks] returns *)

Lemma StronglySorted_filter_gen {A} (R : A -> A -> Prop) (p : A -> bool) l :
  StronglySorted R l -> StronglySorted R (filter p l).
Proof.
  induction 1 as [|x l Hs IH Hx]; simpl; [constructor|].
  destruct (p x); [|assumption].
  constructor; [assumption|].
  rewrite Forall_forall in *. intros y Hy. apply Hx.
  now apply filter_In in Hy.
Qed.

Lemma StronglySorted_map_inv {A B} (R : B -> B -> Prop) (f : A -> B) l :
  StronglySorted R (map f l) -> StronglySorted (fun a b => R (f a) (f b)) l.
Proof.
  induction l as [|x l IH]; simpl; intros Hs; [constructor|].
  inversion Hs as [|? ? Hs' Hx]; subst.
  constructor; [now apply IH|].
  rewrite Forall_forall in *. intros y Hy. apply Hx. now apply in_map.
Qed.

Lemma StronglySorted_impl_in {A} (R R' : A -> A -> Prop) l :
  (forall a b, In a l -> In b l -> R a b -> R' a b) ->
  StronglySorted R l -> StronglySorted R' l.
Proof.
  intros Himp Hs. induction Hs as [|x l Hs IH Hx]; [constructor|].
  constructor.
  - apply IH. intros a b Ha Hb. apply Himp; now right.
  - rewrite Forall_forall in *. intros y Hy.
    apply Himp; [now left|now right|now apply Hx].
Qed.

#[export] Instance CmpOk_group_dt : CmpOk cmp_group_dt.
Proof.
  unfold cmp_group_dt.
  apply (CmpOk_lex (fun a b => cmp (flagged_group a) (flagged_group b))
                   (fun a b => cmp (dt (daily a)) (dt (daily b))));
    apply CmpOk_key.
Qed.

#[export] Instance CmpOk_group_days_desc : CmpOk cmp_group_days_desc.
Proof.
  unfold cmp_group_days_desc.
  apply (CmpOk_lex (fun a b => cmp (run_group a) (run_group b))
                   (fun a b => cmp (days b) (days a))).
  - apply CmpOk_key.
  - apply CmpOk_key_desc.
Qed.

#[export] Instance CmpOk_rank : CmpOk cmp_rank.
Proof.
  unfold cmp_rank.
  apply (CmpOk_lex
           (fun a b => cmp (max_full_oos_streak_days b) (max_full_oos_streak_days a))
           (fun a b => cmp (total_full_oos_days b) (total_full_oos_days a)));
    apply CmpOk_key_desc.
Qed.

Lemma flagged_daily_eq df thr :
  flagged_daily df thr
  = assign_run_id (sort_values cmp_group_dt (add_is_full_oos thr df)).
Proof. reflexivity. Qed.

Lemma run_table_eq df thr : run_table df thr = make_runs (flagged_daily df thr).
Proof. reflexivity. Qed.

Lemma summary_table_eq df thr :
  summary_table df thr
  = make_summary (flagged_daily df thr) (run_table df thr).
Proof. reflexivity. Qed.

Lemma flagged_daily_flagged df thr :
  map flagged (flagged_daily df thr)
  = sort_values cmp_group_dt (add_is_full_oos thr df).
Proof. rewrite flagged_daily_eq. apply assign_run_id_flagged. Qed.

(** The returned daily table holds the rows of the input. *)
Lemma flagged_daily_perm df thr :
  Permutation (map (fun x => daily (flagged x)) (flagged_daily df thr)) df.
Proof.
  rewrite <- (map_map flagged daily), flagged_daily_flagged.
  rewrite sort_values_perm. unfold add_is_full_oos.
  rewrite map_map. simpl. now rewrite map_id.
Qed.

Lemma flagged_daily_flag df thr x :
  In x (flagged_daily df thr) ->
  row_flag x = full_oos_flag thr (oos_rate (daily (flagged x))).
Proof.
  intros Hx. apply (in_map flagged) in Hx.
  rewrite flagged_daily_flagged in Hx.
  apply sort_values_In in Hx. unfold add_is_full_oos in Hx.
  apply in_map_iff in Hx. destruct Hx as (r & E & _).
  unfold row_flag. now rewrite <- E.
Qed.

Lemma flagged_daily_steps df thr g :
  Sorted id_step (get_group row_group g (flagged_daily df thr)).
Proof. rewrite flagged_daily_eq. apply assign_run_id_steps. Qed.

(** Within a group the returned daily table is in date order. *)
Lemma flagged_daily_dates df thr g :
  StronglySorted (fun a b => (row_dt a <= row_dt b)%Z)
                 (get_group row_group g (flagged_daily df thr)).
Proof.
  pose proof (sort_values_sorted cmp_group_dt (add_is_full_oos thr df)) as Hs.
  apply (StronglySorted_filter_gen _
           (fun r => key_eqb (flagged_group r) g)) in Hs.
  fold (get_group flagged_group g
          (sort_values cmp_group_dt (add_is_full_oos thr df))) in Hs.
  rewrite <- assign_run_id_group in Hs.
  rewrite <- (flagged_daily_eq df thr) in Hs.
  apply StronglySorted_map_inv in Hs.
  eapply StronglySorted_impl_in; [|exact Hs].
  intros a b Ha Hb Hab. cbn beta in Hab.
  apply get_group_In in Ha, Hb. destruct Ha as [_ Ha], Hb as [_ Hb].
  unfold le_of, cmp_group_dt in Hab.
  change (flagged_group (flagged a)) with (row_group a) in Hab.
  change (flagged_group (flagged b)) with (row_group b) in Hab.
  rewrite Ha, Hb, cmp_refl in Hab. cbn [lex] in Hab.
  now apply Z_le_of.
Qed.

Lemma group_run_ids D g :
  map run_run_id (get_group run_group g (make_runs D))
  = group_keys run_id (get_group row_group g D).
Proof.
  rewrite runs_of_group.
  set (G := get_group row_group g D).
  assert (Hne : forall k, In k (group_keys run_id G) ->
                          get_group run_id k G <> [])
    by (intros k; apply get_group_nonempty).
  induction (group_keys run_id G) as [|i ids IH]; simpl; [reflexivity|].
  destruct (agg_run_some (g, i) (get_group run_id i G)) as (r & Hr).
  { apply Hne. now left. }
  rewrite Hr. simpl. rewrite (agg_run_id _ _ _ Hr). simpl.
  f_equal. apply IH. intros k Hk. apply Hne. now right.
Qed.

Lemma nat_lt_of (a b : nat) : lt_of a b <-> a < b.
Proof. unfold lt_of. cbn [cmp Ord_nat]. apply Nat.compare_lt_iff. Qed.

Lemma group_run_ids_sorted D g :
  StronglySorted lt (map run_run_id (get_group run_group g (make_runs D))).
Proof.
  rewrite group_run_ids.
  eapply StronglySorted_impl_in; [|apply group_keys_sorted].
  intros a b _ _. apply nat_lt_of.
Qed.

Lemma Forall2_impl {A B} (R R' : A -> B -> Prop) l1 l2 :
  (forall a b, R a b -> R' a b) -> Forall2 R l1 l2 -> Forall2 R' l1 l2.
Proof. intros HR HF. induction HF; constructor; auto. Qed.


(** ** [groupby(...).head(n)] *)

Section HeadFacts.
Context {A K : Type} `{OrdLaws K} (key : A -> K).

Lemma head_from_group n k before l :
  get_group key k (head_from n key before l)
  = firstn (n - List.length (get_group key k before)) (get_group key k l).
Proof.
  revert before. induction l as [|r l IH]; intros before.
  - cbn. now rewrite firstn_nil.
  - cbn [head_from].
    destruct (key_eqb (key r) k) eqn:E.
    + apply key_eqb_eq in E.
      rewrite (get_group_cons_eq key k r l E), E.
      destruct (Nat.ltb_spec (List.length (get_group key k before)) n) as [Hlt|Hge].
      * rewrite (get_group_cons_eq key k r _ E), IH.
        rewrite get_group_app, length_app, (get_group_cons_eq key k r [] E).
        cbn [get_group filter List.length].
        replace (n - List.length (get_group key k before))
          with (S (n - (List.length (get_group key k before) + 1))) by lia.
        reflexivity.
      * rewrite IH.
        rewrite get_group_app, length_app, (get_group_cons_eq key k r [] E).
        cbn [get_group filter List.length].
        replace (n - List.length (get_group key k before)) with 0 by lia.
        replace (n - (List.length (get_group key k before) + 1)) with 0 by lia.
        reflexivity.
    + apply key_eqb_neq in E.
      rewrite (get_group_cons_neq key k r l E).
      assert (Hb : get_group key k (before ++ [r]) = get_group key k before).
      { rewrite get_group_app, (get_group_cons_neq key k r [] E).
        apply app_nil_r. }
      destruct (List.length (get_group key (key r) before) <? n).
      * rewrite (get_group_cons_neq key k r _ E), IH. now rewrite Hb.
      * rewrite IH. now rewrite Hb.
Qed.

(** Every group keeps its first [n] rows. *)
Lemma groupby_head_group n k l :
  get_group key k (groupby_head n key l) = firstn n (get_group key k l).
Proof.
  unfold groupby_head. rewrite head_from_group. cbn. now rewrite Nat.sub_0_r.
Qed.

Lemma head_from_In n before l x :
  In x (head_from n key before l) -> In x l.
Proof.
  revert before. induction l as [|r l IH]; intros before; cbn [head_from];
    [tauto|].
  destruct (List.length (get_group key (key r) before) <? n).
  - intros [->|Hx]; [now left|right; eauto].
  - intros Hx. right. eauto.
Qed.

(** With [n = 1] a frame in key order leaves one row per key, in strictly
    increasing key order. *)
Lemma groupby_head1_sorted l :
  StronglySorted (fun a b => le_of cmp (key a) (key b)) l ->
  StronglySorted (fun a b => lt_of (key a) (key b)) (groupby_head 1 key l).
Proof.
  unfold groupby_head. generalize (@nil A) as before.
  induction l as [|r l IH]; intros before Hs; cbn [head_from]; [constructor|].
  inversion Hs as [|? ? Hs' Hr]; subst.
  specialize (IH (before ++ [r]) Hs').
  destruct (List.length (get_group key (key r) before) <? 1); [|exact IH].
  constructor; [exact IH|].
  apply Forall_forall. intros x Hx.
  rewrite Forall_forall in Hr.
  pose proof (Hr x (head_from_In _ _ _ _ Hx)) as Hle.
  destruct (le_lt_or_eq _ _ Hle) as [Hlt|E]; [exact Hlt|exfalso].
  assert (Hin : In x (get_group key (key r) (head_from 1 key (before ++ [r]) l)))
    by (apply get_group_In; auto).
  rewrite head_from_group in Hin.
  rewrite get_group_app, length_app, (get_group_cons_eq key (key r) r [] eq_refl) in Hin.
  cbn [get_group filter List.length] in Hin.
  replace (1 - (List.length (get_group key (key r) before) + 1)) with 0 in Hin by lia.
  exact Hin.
Qed.
End HeadFacts.

(** The first row of a sorted frame is the first of the least rows. *)
Lemma sort_values_head {A} (c : A -> A -> comparison) `{!CmpOk c} l m rest :
  sort_values c l = m :: rest ->
  exists l1 l2, l = l1 ++ m :: l2
                /\ Forall (fun y => c m y = Lt) l1
                /\ Forall (fun y => le_of c m y) l2.
Proof.
  revert m rest. induction l as [|x l IH]; intros m rest; simpl; [discriminate|].
  destruct (sort_values c l) as [|m' rest'] eqn:E.
  - simpl. intros Hm. injection Hm as <- <-.
    assert (l = []) as ->.
    { apply (f_equal (@List.length A)) in E.
      rewrite sort_values_length in E. now destruct l. }
    exists [], []. repeat split; constructor.
  - destruct (IH _ _ eq_refl) as (l1 & l2 & Hl & H1 & H2).
    simpl. destruct (cmp_leb (c x m')) eqn:Exm; intros Hm; injection Hm as <- <-.
    + exists [], l. repeat split; [constructor|].
      rewrite Hl. apply Forall_app. split; [|constructor].
      * eapply Forall_impl; [|exact H1]. intros y Hy.
        eapply c_le_trans; [exact Exm|]. now apply c_lt_le.
      * exact Exm.
      * eapply Forall_impl; [|exact H2]. intros y Hy.
        eapply c_le_trans; [exact Exm|exact Hy].
    + exists (x :: l1), l2. rewrite Hl. repeat split; [|exact H2].
      constructor; [|exact H1]. now apply c_not_le.
Qed.

(** ** The summary *)

Lemma get_group_map {A B K} `{OrdLaws K} (kA : A -> K) (kB : B -> K)
      (f : A -> B) k l :
  (forall x, kB (f x) = kA x) ->
  get_group kB k (map f l) = map f (get_group kA k l).
Proof.
  intros Hk. unfold get_group.
  induction l as [|x l IH]; simpl; [reflexivity|].
  rewrite Hk. destruct (key_eqb (kA x) k); simpl; now rewrite IH.
Qed.

Lemma get_group_filter {A K} `{Ord K} (key : A -> K) k (p : A -> bool) l :
  get_group key k (filter p l) = filter p (get_group key k l).
Proof.
  unfold get_group. induction l as [|x l IH]; simpl; [reflexivity|].
  destruct (p x) eqn:Ep, (key_eqb (key x) k) eqn:Ek; simpl;
    rewrite ?Ep, ?Ek, IH; reflexivity.
Qed.

Lemma total_full_days_unfold D :
  total_full_days D
  = map (fun k => (k, List.length (get_group row_group k (filter row_flag D))))
        (group_keys row_group (filter row_flag D)).
Proof. unfold total_full_days, groupby. now rewrite map_map. Qed.

Lemma filter_key_map {K V} `{OrdLaws K} (f : K -> V) g ks :
  NoDup ks ->
  filter (fun t => key_eqb (fst t) g) (map (fun k => (k, f k)) ks)
  = if existsb (fun k => key_eqb k g) ks then [(g, f g)] else [].
Proof.
  induction 1 as [|k ks Hk Hnd IH]; simpl; [reflexivity|].
  destruct (key_eqb k g) eqn:E; simpl; [|exact IH].
  apply key_eqb_eq in E. subst k. rewrite IH.
  destruct (existsb (fun k => key_eqb k g) ks) eqn:Ex; [|reflexivity].
  apply existsb_exists in Ex. destruct Ex as (k & Hin & Ek).
  apply key_eqb_eq in Ek. now subst k.
Qed.

Lemma merge_left_cons s left right :
  merge_left (s :: left) right
  = match filter (fun t => key_eqb (fst t) (streak_group s)) right with
    | [] => [(s, None)]
    | ms => map (fun t => (s, Some (snd t))) ms
    end ++ merge_left left right.
Proof. reflexivity. Qed.

(** The merge finds exactly one total per row of the left frame, or none
    for a group without flagged rows, which [fillna] turns into the same
    number. *)
Lemma make_summary_unfold D runs :
  make_summary D runs
  = map (summary_of_streak D) (max_streaks (filter run_is_full_oos runs)).
Proof.
  unfold make_summary.
  generalize (max_streaks (filter run_is_full_oos runs)) as left.
  intros left.
  induction left as [|s left IH]; [reflexivity|].
  rewrite merge_left_cons, map_app, IH. clear IH.
  change (map (summary_of_streak D) (s :: left))
    with ([summary_of_streak D s] ++ map (summary_of_streak D) left).
  f_equal.
  rewrite total_full_days_unfold.
  rewrite (filter_key_map
             (fun k => List.length (get_group row_group k (filter row_flag D))))
    by apply group_keys_NoDup.
  destruct (existsb (fun k => key_eqb k (streak_group s))
                    (group_keys row_group (filter row_flag D))) eqn:Ex.
  - reflexivity.
  - cbn. unfold finish_summary, summary_of_streak, full_days_of. cbn.
    f_equal. f_equal. symmetry.
    rewrite get_group_none; [reflexivity|].
    intros r Hr Hg.
    assert (Hin : In (streak_group s) (group_keys row_group (filter row_flag D)))
      by (apply group_keys_In; eauto).
    assert (Ht : existsb (fun k => key_eqb k (streak_group s))
                         (group_keys row_group (filter row_flag D)) = true).
    { apply existsb_exists. exists (streak_group s).
      split; [exact Hin|apply key_eqb_refl]. }
    congruence.
Qed.

Lemma streak_of_run_group r : streak_group (streak_of_run r) = run_group r.
Proof. reflexivity. Qed.

Lemma summary_of_streak_group D s :
  sum_group (summary_of_streak D s) = streak_group s.
Proof. reflexivity. Qed.

(** The rows of [summary] for one group: the first row of the group's
    flagged runs once these are sorted by decreasing length. *)
Lemma summary_of_group D runs g :
  get_group sum_group g (make_summary D runs)
  = map (fun r => summary_of_streak D (streak_of_run r))
        (firstn 1 (sort_values cmp_group_days_desc
                     (filter run_is_full_oos (get_group run_group g runs)))).
Proof.
  rewrite make_summary_unfold.
  rewrite (get_group_map streak_group sum_group) by apply summary_of_streak_group.
  unfold max_streaks.
  rewrite (get_group_map run_group streak_group) by apply streak_of_run_group.
  rewrite groupby_head_group.
  unfold get_group at 1.
  rewrite (filter_sort_values cmp_group_days_desc).
  fold (get_group run_group g (filter run_is_full_oos runs)).
  rewrite get_group_filter. now rewrite map_map.
Qed.

Lemma firstn_1_In {A} (x : A) l :
  In x (firstn 1 l) -> exists rest, l = x :: rest.
Proof. destruct l as [|y l]; simpl; [tauto|]. intros [->|[]]. eauto. Qed.

(** A row of [summary] describes a flagged run of its group that is at
    least as long as every flagged run of the group and longer than those
    before it in the run table. *)
Lemma In_summary D runs s :
  In s (make_summary D runs) ->
  exists m l1 l2,
    filter run_is_full_oos (get_group run_group (sum_group s) runs)
    = l1 ++ m :: l2
    /\ Forall (fun y => days y < days m) l1
    /\ Forall (fun y => days y <= days m) l2
    /\ s = summary_of_streak D (streak_of_run m).
Proof.
  intros Hs.
  assert (Hg : In s (get_group sum_group (sum_group s) (make_summary D runs)))
    by (apply get_group_In; auto).
  rewrite summary_of_group in Hg.
  apply in_map_iff in Hg. destruct Hg as (m & Hm & Hin).
  apply firstn_1_In in Hin. destruct Hin as (rest & Hsort).
  destruct (sort_values_head _ _ _ _ Hsort) as (l1 & l2 & Hl & H1 & H2).
  exists m, l1, l2.
  assert (Hgrp : forall y, In y (l1 ++ m :: l2) -> run_group y = sum_group s).
  { intros y Hy. rewrite <- Hl in Hy. apply filter_In in Hy.
    destruct Hy as [Hy _]. now apply get_group_In in Hy. }
  assert (Hc : forall y, In y (l1 ++ m :: l2) ->
                         cmp_group_days_desc m y = cmp (days y) (days m)).
  { intros y Hy. unfold cmp_group_days_desc.
    rewrite (Hgrp y Hy), (Hgrp m) by (apply in_elt).
    now rewrite cmp_refl. }
  repeat split; [exact Hl| | |now symmetry].
  - apply Forall_forall. intros y Hy.
    rewrite Forall_forall in H1. specialize (H1 y Hy).
    rewrite Hc in H1 by (apply in_or_app; now left).
    now apply nat_lt_of.
  - apply Forall_forall. intros y Hy.
    rewrite Forall_forall in H2. specialize (H2 y Hy).
    unfold le_of in H2.
    rewrite Hc in H2 by (apply in_or_app; right; now right).
    now apply nat_le_of.
Qed.

(** [summary] has a row for a group exactly when the group has a flagged
    run. *)
Lemma summary_has_group D runs g :
  In g (map sum_group (make_summary D runs))
  <-> filter run_is_full_oos (get_group run_group g runs) <> [].
Proof.
  split.
  - intros Hin. apply in_map_iff in Hin. destruct Hin as (s & <- & Hs).
    destruct (In_summary _ _ _ Hs) as (m & l1 & l2 & Hl & _).
    rewrite Hl. now destruct l1.
  - intros Hne.
    assert (Hsort : sort_values cmp_group_days_desc
              (filter run_is_full_oos (get_group run_group g runs)) <> []).
    { intros E. apply Hne. apply (f_equal (@List.length run)) in E.
      rewrite sort_values_length in E.
      now destruct (filter run_is_full_oos (get_group run_group g runs)). }
    pose proof (summary_of_group D runs g) as Hg.
    destruct (sort_values cmp_group_days_desc
                (filter run_is_full_oos (get_group run_group g runs)))
      as [|m rest]; [congruence|].
    cbn in Hg.
    assert (Hin : In (summary_of_streak D (streak_of_run m))
                     (get_group sum_group g (make_summary D runs)))
      by (rewrite Hg; now left).
    apply get_group_In in Hin. destruct Hin as [Hin Hk].
    apply in_map_iff. eauto.
Qed.

(** [summary] is in strictly increasing group order. *)
Lemma summary_groups_sorted D runs :
  StronglySorted (fun a b => lt_of (sum_group a) (sum_group b))
                 (make_summary D runs).
Proof.
  rewrite make_summary_unfold. unfold max_streaks.
  rewrite map_map.
  set (FR := filter run_is_full_oos runs).
  assert (Hs : StronglySorted (fun a b => lt_of (run_group a) (run_group b))
                 (groupby_head 1 run_group (sort_values cmp_group_days_desc FR))).
  { apply groupby_head1_sorted.
    eapply StronglySorted_impl_in; [|apply sort_values_sorted; typeclasses eauto].
    intros a b _ _. unfold le_of, cmp_group_days_desc, lex.
    now destruct (cmp (run_group a) (run_group b)). }
  induction Hs as [|r l Hs IH Hr]; simpl; constructor; [exact IH|].
  rewrite Forall_forall in *. intros s Hin.
  apply in_map_iff in Hin. destruct Hin as (r' & <- & Hr').
  now apply Hr.
Qed.

(** ** Runs and flagged days of a group *)

Lemma Forall2_In_left {A B} (R : A -> B -> Prop) l1 l2 a :
  Forall2 R l1 l2 -> In a l1 -> exists b, In b l2 /\ R a b.
Proof.
  induction 1 as [|x y l1 l2 Hxy HF IH]; simpl; [tauto|].
  intros [->|Ha]; [eauto|].
  destruct (IH Ha) as (b & Hb & Hab). eauto.
Qed.

Lemma filter_all {A} (p : A -> bool) l :
  Forall (fun x => p x = true) l -> filter p l = l.
Proof.
  induction 1 as [|x l Hx Hl IH]; simpl; [reflexivity|].
  now rewrite Hx, IH.
Qed.

Lemma filter_none {A} (p : A -> bool) l :
  Forall (fun x => p x = false) l -> filter p l = [].
Proof.
  induction 1 as [|x l Hx Hl IH]; simpl; [reflexivity|].
  now rewrite Hx, IH.
Qed.

Lemma run_covers_flagged r c :
  run_covers r c ->
  List.length (filter row_flag c) = if run_is_full_oos r then days r else 0.
Proof.
  intros (_ & Hd & Hall & _).
  destruct (run_is_full_oos r) eqn:E.
  - rewrite filter_all; [now symmetry|].
    eapply Forall_impl; [|exact Hall]. intros x (_ & Hx & _). congruence.
  - rewrite filter_none; [reflexivity|].
    eapply Forall_impl; [|exact Hall]. intros x (_ & Hx & _). congruence.
Qed.

(** The lengths of the flagged runs add up to the number of flagged rows. *)
Lemma flagged_runs_count Rg cs :
  Forall2 run_covers Rg cs ->
  list_sum (map days (filter run_is_full_oos Rg))
  = List.length (filter row_flag (List.concat cs)).
Proof.
  induction 1 as [|r c Rg cs Hrc HF IH]; [reflexivity|].
  cbn [List.concat filter]. rewrite filter_app, length_app.
  rewrite (run_covers_flagged _ _ Hrc), <- IH.
  destruct (run_is_full_oos r); reflexivity.
Qed.

Lemma run_covers_days r c : run_covers r c -> 1 <= days r.
Proof.
  intros (Hne & Hd & _). rewrite Hd. destruct c; [congruence|simpl; lia].
Qed.

Lemma list_sum_In {A} (f : A -> nat) x l :
  In x l -> f x <= list_sum (map f l).
Proof.
  induction l as [|y l IH]; simpl; [tauto|].
  intros [->|Hx]; [lia|]. specialize (IH Hx). lia.
Qed.

Lemma group_covers df thr g :
  Forall2 run_covers
          (get_group run_group g (run_table df thr))
          (chunks run_id (get_group row_group g (flagged_daily df thr))).
Proof.
  destruct (group_segmentation (flagged_daily df thr) g
              (flagged_daily_steps df thr g)) as [HF _].
  rewrite run_table_eq.
  eapply Forall2_impl; [|exact HF]. now intros r c [Hc _].
Qed.

Lemma group_flagged_days df thr g :
  list_sum (map days (filter run_is_full_oos
                        (get_group run_group g (run_table df thr))))
  = full_days_of (flagged_daily df thr) g.
Proof.
  rewrite (flagged_runs_count _ _ (group_covers df thr g)).
  rewrite chunks_concat. unfold full_days_of. now rewrite get_group_filter.
Qed.

Lemma In_run_table_days df thr r :
  In r (run_table df thr) -> 1 <= days r.
Proof.
  intros Hr.
  assert (Hg : In r (get_group run_group (run_group r) (run_table df thr)))
    by (apply get_group_In; auto).
  destruct (Forall2_In_left _ _ _ _ (group_covers df thr (run_group r)) Hg)
    as (c & _ & Hc).
  now apply run_covers_days in Hc.
Qed.

(** A group has a flagged run exactly when it has a flagged row. *)
Lemma flagged_run_iff_flagged_row df thr g :
  filter run_is_full_oos (get_group run_group g (run_table df thr)) <> []
  <-> exists x, In x (flagged_daily df thr)
                /\ row_group x = g /\ row_flag x = true.
Proof.
  pose proof (group_flagged_days df thr g) as Hsum.
  unfold full_days_of in Hsum.
  split.
  - intros Hne.
    destruct (filter run_is_full_oos (get_group run_group g (run_table df thr)))
      as [|m rest] eqn:E; [congruence|].
    assert (Hm : In m (run_table df thr)).
    { assert (Hin : In m (m :: rest)) by now left.
      rewrite <- E in Hin. apply filter_In in Hin. destruct Hin as [Hin _].
      now apply get_group_In in Hin. }
    apply In_run_table_days in Hm.
    change (list_sum (map days (m :: rest)))
      with (days m + list_sum (map days rest)) in Hsum.
    destruct (get_group row_group g (filter row_flag (flagged_daily df thr)))
      as [|x l] eqn:Ex; [simpl in Hsum; lia|].
    assert (Hx : In x (x :: l)) by now left.
    rewrite <- Ex in Hx. apply get_group_In in Hx. destruct Hx as [Hx Hg].
    apply filter_In in Hx. destruct Hx as [Hx Hf]. eauto.
  - intros (x & Hx & Hg & Hf) E. rewrite E in Hsum.
    change (list_sum (map days [])) with 0 in Hsum.
    assert (Hin : In x (get_group row_group g
                          (filter row_flag (flagged_daily df thr)))).
    { apply get_group_In. split; [|exact Hg]. now apply filter_In. }
    destruct (get_group row_group g (filter row_flag (flagged_daily df thr)));
      [exact Hin|discriminate].
Qed.

(** ** Partition into runs *)

Lemma Permutation_get_group {A K} `{Ord K} (key : A -> K) k l1 l2 :
  Permutation l1 l2 -> Permutation (get_group key k l1) (get_group key k l2).
Proof.
  unfold get_group.
  induction 1 as [|x l1 l2 HP IH|x y l|l1 l2 l3 HP1 IH1 HP2 IH2]; simpl.
  - constructor.
  - destruct (key_eqb (key x) k); [now constructor|exact IH].
  - destruct (key_eqb (key x) k), (key_eqb (key y) k);
      try apply perm_swap; reflexivity.
  - now transitivity (filter (fun r => key_eqb (key r) k) l2).
Qed.

(** The daily rows of a group in the returned table are the input rows of
    the group. *)
Lemma flagged_daily_group_perm df thr g :
  Permutation
    (map (fun x => daily (flagged x))
         (get_group row_group g (flagged_daily df thr)))
    (get_group daily_group g df).
Proof.
  rewrite <- (get_group_map row_group daily_group
                (fun x => daily (flagged x))) by reflexivity.
  apply Permutation_get_group, flagged_daily_perm.
Qed.

(** C8.  For every group, the daily rows of the group in the returned table
    are the input rows of the group in date order, and the rows of the run
    table for that group, in table order, cover them block by block: the
    blocks concatenate to the group's rows, each run counts the rows of its
    block, which all carry its identifier and flag; the run identifiers
    increase strictly along the table, so a row lies in exactly one run; and
    two neighbouring runs of a group never have the same flag. *)
Theorem runs_partition_and_alternate (df : list daily_row) (thr : Q)
        (g : group_key) :
  let G := get_group row_group g (flagged_daily df thr) in
  let Rg := get_group run_group g (run_table df thr) in
  Permutation (map (fun x => daily (flagged x)) G) (get_group daily_group g df)
  /\ StronglySorted (fun a b => (row_dt a <= row_dt b)%Z) G
  /\ (exists cs, List.concat cs = G /\ Forall2 run_covers Rg cs)
  /\ StronglySorted lt (map run_run_id Rg)
  /\ alternating (map run_is_full_oos Rg).
Proof.
  intros G Rg. unfold G, Rg.
  split; [apply flagged_daily_group_perm|].
  split; [apply flagged_daily_dates|].
  split.
  - exists (chunks run_id (get_group row_group g (flagged_daily df thr))).
    split; [apply chunks_concat|apply group_covers].
  - rewrite run_table_eq.
    split; [apply group_run_ids_sorted|].
    apply (group_segmentation (flagged_daily df thr) g
             (flagged_daily_steps df thr g)).
Qed.

(** ** Totals *)

Lemma summary_total df thr s :
  In s (summary_table df thr) ->
  total_full_oos_days s
  = list_sum (map days
                  (filter run_is_full_oos
                          (get_group run_group (sum_group s)
                                     (run_table df thr)))).
Proof.
  intros Hs. rewrite summary_table_eq in Hs.
  rewrite group_flagged_days.
  rewrite make_summary_unfold in Hs.
  apply in_map_iff in Hs. destruct Hs as (s0 & <- & _). reflexivity.
Qed.

(** C7.  For every row of the summary, [total_full_oos_days] is the sum of
    [days] over the flagged runs of the row's group in the run table,
    whichever of them is reported as the longest.  For six consecutive
    dates flagged true, true, false, true, true, true the runs are
    (true, 2), (false, 1), (true, 3), the longest streak is 3 and the total
    is 5. *)
Theorem total_is_sum_of_flagged_runs :
  (forall df thr s,
      In s (summary_table df thr) ->
      total_full_oos_days s
      = list_sum (map days
                      (filter run_is_full_oos
                              (get_group run_group (sum_group s)
                                         (run_table df thr)))))
  /\ map (fun r => (run_is_full_oos r, days r))
         (run_table ex_six default_threshold)
     = [(true, 2); (false, 1); (true, 3)]
  /\ map (fun s => (max_full_oos_streak_days s, total_full_oos_days s))
         (summary_table ex_six default_threshold)
     = [(3, 5)].
Proof.
  split; [|split; vm_compute; reflexivity].
  intros df thr s Hs. now apply summary_total.
Qed.

Lemma total_is_sum_of_flagged_runs_witness :
  total_full_oos_days (mk_summary "A" "p" 4 6 3 5)
  = list_sum (map days
                  (filter run_is_full_oos
                          (get_group run_group ("A", "p")%string
                                     (run_table ex_six default_threshold)))).
Proof.
  apply (proj1 total_is_sum_of_flagged_runs ex_six default_threshold
               (mk_summary "A" "p" 4 6 3 5)).
  vm_compute. left. reflexivity.
Defined.

(** ** Groups without a flagged run *)

(** C2 as stated: a group with records and no flagged run would have a
    summary row with zero days.  It fails: the summary is built from the
    flagged runs only, so such a group has no row. *)
Lemma zero_streak_group_is_dropped :
  ~ (forall df thr g,
        In g (map daily_group df) ->
        (forall x, In x (flagged_daily df thr) ->
                   row_group x = g -> row_flag x = false) ->
        exists s, In s (summary_table df thr)
                  /\ sum_group s = g
                  /\ max_full_oos_streak_days s = 0
                  /\ total_full_oos_days s = 0).
Proof.
  intros H.
  destruct (H ex_never default_threshold ("A", "p")%string) as (s & Hs & Hg & _).
  - vm_compute. now left.
  - vm_compute. intros x [<-|[<-|[<-|[]]]]; intros E; try reflexivity;
      discriminate.
  - vm_compute in Hs. destruct Hs as [<-|[]]. discriminate.
Qed.

(** C2, amended.  The summary has a row for a group exactly when the group
    has a flagged day; a group whose days are all unflagged has no row.
    Every row reports at least one day, and no more days in the longest
    streak than in total. *)
Theorem summary_groups_are_flagged_groups :
  (forall df thr g,
      In g (map sum_group (summary_table df thr))
      <-> exists x, In x (flagged_daily df thr)
                    /\ row_group x = g /\ row_flag x = true)
  /\ (forall df thr s,
         In s (summary_table df thr) ->
         1 <= max_full_oos_streak_days s <= total_full_oos_days s).
Proof.
  split.
  - intros df thr g. rewrite summary_table_eq, summary_has_group.
    apply flagged_run_iff_flagged_row.
  - intros df thr s Hs.
    pose proof (summary_total df thr s Hs) as Ht.
    rewrite summary_table_eq in Hs.
    destruct (In_summary _ _ _ Hs) as (m & l1 & l2 & Hl & _ & _ & Es).
    assert (Hm : In m (filter run_is_full_oos
                         (get_group run_group (sum_group s) (run_table df thr))))
      by (rewrite Hl; apply in_elt).
    pose proof (list_sum_In days m _ Hm) as Hle.
    apply filter_In in Hm. destruct Hm as [Hm _].
    apply get_group_In in Hm. destruct Hm as [Hm _].
    apply In_run_table_days in Hm.
    assert (Hd : max_full_oos_streak_days s = days m) by now rewrite Es.
    lia.
Qed.

Lemma summary_groups_are_flagged_groups_witness :
  1 <= max_full_oos_streak_days (mk_summary "B" "p" 1 1 1 1)
    <= total_full_oos_days (mk_summary "B" "p" 1 1 1 1)
  /\ ~ In ("A", "p")%string (map sum_group (summary_table ex_never default_threshold)).
Proof.
  split.
  - apply (proj2 summary_groups_are_flagged_groups ex_never default_threshold).
    vm_compute. left. reflexivity.
  - intros Hin.
    apply (proj1 summary_groups_are_flagged_groups) in Hin.
    destruct Hin as (x & Hx & Hg & Hf). vm_compute in Hx.
    destruct Hx as [<-|[<-|[<-|[]]]]; discriminate.
Defined.

(** ** The longest streak *)

Lemma StronglySorted_app_inv {A} (R : A -> A -> Prop) l1 l2 :
  StronglySorted R (l1 ++ l2) ->
  StronglySorted R l1 /\ StronglySorted R l2
  /\ forall x y, In x l1 -> In y l2 -> R x y.
Proof.
  induction l1 as [|a l1 IH]; simpl; intros Hs.
  - repeat split; [constructor|exact Hs|tauto].
  - inversion Hs as [|? ? Hs' Ha]; subst.
    destruct (IH Hs') as (H1 & H2 & H12).
    rewrite Forall_forall in Ha.
    repeat split; [|exact H2|].
    + constructor; [exact H1|]. apply Forall_forall.
      intros y Hy. apply Ha, in_or_app. now left.
    + intros x y [<-|Hx] Hy; [|now apply H12].
      apply Ha, in_or_app. now right.
Qed.

(** Along the run table of a group the start dates are ordered as the
    dates of the group's rows are. *)
Lemma run_starts_sorted (R : Z -> Z -> Prop) Rg cs :
  Forall2 run_covers Rg cs ->
  StronglySorted (fun a b => R (row_dt a) (row_dt b)) (List.concat cs) ->
  StronglySorted (fun a b => R (start_dt a) (start_dt b)) Rg.
Proof.
  induction 1 as [|r c Rg cs Hrc HF IH]; intros Hs; [constructor|].
  cbn [List.concat] in Hs.
  destruct (StronglySorted_app_inv _ _ _ Hs) as (_ & Hs2 & H12).
  constructor; [now apply IH|].
  apply Forall_forall. intros r' Hr'.
  destruct (Forall2_In_left _ _ _ _ HF Hr') as (c' & Hc' & Hrc').
  destruct Hrc as (_ & _ & _ & Hstart & _).
  destruct Hrc' as (_ & _ & _ & Hstart' & _).
  apply in_map_iff in Hstart, Hstart'.
  destruct Hstart as (x & <- & Hx), Hstart' as (y & <- & Hy).
  apply H12; [exact Hx|].
  apply in_concat. eauto.
Qed.

Lemma StronglySorted_and {A} (R1 R2 : A -> A -> Prop) l :
  StronglySorted R1 l -> StronglySorted R2 l ->
  StronglySorted (fun a b => R1 a b /\ R2 a b) l.
Proof.
  induction 1 as [|x l Hs IH Hx]; intros H2; [constructor|].
  inversion H2 as [|? ? Hs2 Hx2]; subst.
  constructor; [now apply IH|].
  rewrite Forall_forall in *. intros y Hy. split; auto.
Qed.

Lemma group_runs_order df thr g :
  StronglySorted (fun a b => (start_dt a <= start_dt b)%Z
                             /\ run_run_id a < run_run_id b)
                 (get_group run_group g (run_table df thr)).
Proof.
  apply StronglySorted_and.
  - apply (run_starts_sorted Z.le _ _ (group_covers df thr g)).
    rewrite chunks_concat. apply flagged_daily_dates.
  - pose proof (group_run_ids_sorted (flagged_daily df thr) g) as Hid.
    rewrite <- run_table_eq in Hid.
    now apply StronglySorted_map_inv in Hid.
Qed.

Lemma NoDup_map_filter {A B} (f : A -> B) (p : A -> bool) l :
  NoDup (map f l) -> NoDup (map f (filter p l)).
Proof.
  induction l as [|x l IH]; simpl; intros Hnd; [constructor|].
  inversion Hnd as [|? ? Hnin Hnd']; subst.
  destruct (p x); simpl; [|now apply IH].
  constructor; [|now apply IH].
  intros Hin. apply Hnin. apply in_map_iff in Hin.
  destruct Hin as (y & E & Hy). apply filter_In in Hy.
  rewrite <- E. apply in_map. tauto.
Qed.

Lemma row_key_eq (x y : run_id_row) :
  row_group x = row_group y -> row_dt x = row_dt y ->
  daily_key (daily (flagged x)) = daily_key (daily (flagged y)).
Proof.
  unfold row_group, flagged_group, daily_group, row_dt, daily_key.
  intros Eg Ed. injection Eg as -> ->. now rewrite Ed.
Qed.

(** With at most one input row per group and date, the dates of a group
    increase strictly. *)
Lemma flagged_daily_dates_strict df thr g :
  NoDup (map daily_key df) ->
  StronglySorted (fun a b => (row_dt a < row_dt b)%Z)
                 (get_group row_group g (flagged_daily df thr)).
Proof.
  intros Hnd.
  assert (HD : NoDup (map (fun x => daily_key (daily (flagged x)))
                          (flagged_daily df thr))).
  { rewrite <- (map_map (fun x => daily (flagged x)) daily_key).
    eapply Permutation_NoDup; [|exact Hnd].
    symmetry. apply Permutation_map, flagged_daily_perm. }
  apply (NoDup_map_filter _ (fun r => key_eqb (row_group r) g)) in HD.
  fold (get_group row_group g (flagged_daily df thr)) in HD.
  pose proof (flagged_daily_dates df thr g) as Hs.
  assert (Hg : forall x, In x (get_group row_group g (flagged_daily df thr)) ->
                         row_group x = g)
    by (intros x Hx; now apply get_group_In in Hx).
  induction Hs as [|x l Hs IH Hx]; [constructor|].
  cbn [map] in HD. inversion HD as [|? ? Hnin HD']; subst.
  constructor.
  - apply IH; [exact HD'|]. intros y Hy. apply Hg. now right.
  - rewrite Forall_forall in *. intros y Hy.
    specialize (Hx y Hy).
    destruct (Z.eq_dec (row_dt x) (row_dt y)) as [E|Hne]; [|lia].
    exfalso. apply Hnin.
    rewrite (row_key_eq x y); [now apply in_map with (f := fun x => daily_key (daily (flagged x)))| |exact E].
    rewrite (Hg x), (Hg y); auto; [now right|now left].
Qed.

Lemma group_runs_starts_strict df thr g :
  NoDup (map daily_key df) ->
  StronglySorted (fun a b => (start_dt a < start_dt b)%Z)
                 (get_group run_group g (run_table df thr)).
Proof.
  intros Hnd.
  apply (run_starts_sorted Z.lt _ _ (group_covers df thr g)).
  rewrite chunks_concat. now apply flagged_daily_dates_strict.
Qed.

(** C4.  Every row of the summary reports a flagged run of its group: its
    length and its bounds.  No flagged run of the group is longer.  Every
    other flagged run of the group with that maximal length comes later in
    the run table (it has a larger run identifier) and does not start
    earlier; when the input has at most one row per group and date, it
    starts strictly later, so the reported run is the earliest. *)
Theorem max_streak_is_first_longest (df : list daily_row) (thr : Q)
        (s : summary_row) :
  In s (summary_table df thr) ->
  exists r,
    In r (run_table df thr)
    /\ run_is_full_oos r = true
    /\ run_group r = sum_group s
    /\ max_full_oos_streak_days s = days r
    /\ max_streak_start_dt s = start_dt r
    /\ max_streak_end_dt s = end_dt r
    /\ forall r',
        In r' (run_table df thr) ->
        run_is_full_oos r' = true ->
        run_group r' = sum_group s ->
        days r' <= days r
        /\ (days r' = days r -> r' <> r ->
            run_run_id r < run_run_id r'
            /\ (start_dt r <= start_dt r')%Z
            /\ (NoDup (map daily_key df) -> (start_dt r < start_dt r')%Z)).
Proof.
  intros Hs. rewrite summary_table_eq in Hs.
  destruct (In_summary _ _ _ Hs) as (m & l1 & l2 & Hl & H1 & H2 & Es).
  set (g := sum_group s) in *.
  assert (Hm : In m (filter run_is_full_oos
                       (get_group run_group g (run_table df thr))))
    by (rewrite Hl; apply in_elt).
  apply filter_In in Hm. destruct Hm as [Hm Hflag].
  apply get_group_In in Hm. destruct Hm as [Hm Hg].
  assert (Hord : forall r', In r' (l1 ++ m :: l2) ->
                   days r' <= days m
                   /\ (days r' = days m -> r' <> m ->
                       run_run_id m < run_run_id r'
                       /\ (start_dt m <= start_dt r')%Z
                       /\ (NoDup (map daily_key df) ->
                           (start_dt m < start_dt r')%Z))).
  { pose proof (group_runs_order df thr g) as Hso.
    apply (StronglySorted_filter_gen _ run_is_full_oos) in Hso.
    rewrite Hl in Hso.
    destruct (StronglySorted_app_inv _ _ _ Hso) as (_ & Hso2 & _).
    inversion Hso2 as [|? ? _ Hm2]; subst.
    rewrite Forall_forall in H1, H2, Hm2.
    intros r' Hin. apply in_app_or in Hin.
    destruct Hin as [Hin|[<-|Hin]].
    - specialize (H1 _ Hin). lia.
    - split; [lia|]. intros _ Hne. congruence.
    - split; [now apply H2|]. intros _ _.
      destruct (Hm2 _ Hin) as [Hstart Hid].
      split; [exact Hid|]. split; [exact Hstart|].
      intros Hnd.
      pose proof (group_runs_starts_strict df thr g Hnd) as Hst.
      apply (StronglySorted_filter_gen _ run_is_full_oos) in Hst.
      rewrite Hl in Hst.
      destruct (StronglySorted_app_inv _ _ _ Hst) as (_ & Hst2 & _).
      inversion Hst2 as [|? ? _ Hm3]; subst.
      rewrite Forall_forall in Hm3. now apply Hm3. }
  exists m.
  split; [exact Hm|]. split; [exact Hflag|]. split; [exact Hg|].
  split; [now rewrite Es|]. split; [now rewrite Es|]. split; [now rewrite Es|].
  intros r' Hr' Hf' Hg'. apply Hord.
  rewrite <- Hl. apply filter_In. split; [|exact Hf'].
  now apply get_group_In.
Qed.

Example ex_tie_summary :
  run_table ex_tie default_threshold
  = [ mk_run "A" "p" 1 true 1 2 2; mk_run "A" "p" 2 false 3 3 1;
      mk_run "A" "p" 3 true 4 5 2 ]
  /\ summary_table ex_tie default_threshold = [ mk_summary "A" "p" 1 2 2 4 ].
Proof. split; vm_compute; reflexivity. Qed.

Lemma max_streak_is_first_longest_witness :
  In (mk_summary "A" "p" 1 2 2 4) (summary_table ex_tie default_threshold)
  /\ exists r,
      In r (run_table ex_tie default_threshold)
      /\ run_is_full_oos r = true
      /\ run_group r = ("A", "p")%string
      /\ 2 = days r
      /\ 1%Z = start_dt r
      /\ 2%Z = end_dt r
      /\ forall r',
          In r' (run_table ex_tie default_threshold) ->
          run_is_full_oos r' = true ->
          run_group r' = ("A", "p")%string ->
          days r' <= days r
          /\ (days r' = days r -> r' <> r ->
              run_run_id r < run_run_id r'
              /\ (start_dt r <= start_dt r')%Z
              /\ (NoDup (map daily_key ex_tie) ->
                  (start_dt r < start_dt r')%Z)).
Proof.
  assert (Hin : In (mk_summary "A" "p" 1 2 2 4)
                   (summary_table ex_tie default_threshold))
    by (vm_compute; left; reflexivity).
  split; [exact Hin|].
  exact (max_streak_is_first_longest ex_tie default_threshold
           (mk_summary "A" "p" 1 2 2 4) Hin).
Defined.

(** ** Date gaps *)

Lemma Sorted_app_adjacent {A} (R : A -> A -> Prop) l1 x y l2 :
  Sorted R (l1 ++ x :: y :: l2) -> R x y.
Proof.
  induction l1 as [|a l1 IH]; simpl; intros Hs.
  - inversion Hs as [|? ? _ Hhd]; subst. now inversion Hhd.
  - inversion Hs; subst. now apply IH.
Qed.

Lemma In_make_runs D r :
  In r (make_runs D)
  <-> exists k, In k (group_keys row_run_key D)
                /\ agg_run k (get_group row_run_key k D) = Some r.
Proof.
  rewrite make_runs_unfold, in_flat_map. split.
  - intros (k & Hk & Hr). exists k. split; [exact Hk|].
    destruct (agg_run k (get_group row_run_key k D)); simpl in Hr;
      [destruct Hr as [->|[]]; reflexivity|contradiction].
  - intros (k & Hk & Hr). exists k. split; [exact Hk|].
    rewrite Hr. now left.
Qed.

(** C5.  Two rows that follow each other in a group's series and have the
    same flag receive the same run identifier, whatever their dates, so they
    lie in the same run; the [days] of a run is the number of rows that
    carry its group and identifier.  For the dates 1, 2, 4, 5 of one group,
    all flagged, the run table is a single run of 4 days from 1 to 5. *)
Theorem record_adjacency_ignores_dates :
  (forall df thr g l1 r1 r2 l2,
      get_group row_group g (flagged_daily df thr) = l1 ++ r1 :: r2 :: l2 ->
      row_flag r1 = row_flag r2 ->
      run_id r1 = run_id r2)
  /\ (forall df thr r,
         In r (run_table df thr) ->
         days r = List.length
                    (get_group row_run_key (run_group r, run_run_id r)
                               (flagged_daily df thr)))
  /\ map row_flag (flagged_daily ex_gap default_threshold)
     = [true; true; true; true]
  /\ run_table ex_gap default_threshold = [ mk_run "A" "p" 1 true 1 5 4 ].
Proof.
  split; [|split; [|split; vm_compute; reflexivity]].
  - intros df thr g l1 r1 r2 l2 HG Hf.
    pose proof (flagged_daily_steps df thr g) as Hs. rewrite HG in Hs.
    apply Sorted_app_adjacent in Hs. unfold id_step in Hs.
    rewrite Hf, Bool.eqb_reflx in Hs. lia.
  - intros df thr r Hr. rewrite run_table_eq in Hr.
    apply In_make_runs in Hr. destruct Hr as (k & _ & Hagg).
    rewrite (agg_run_group _ _ _ Hagg), (agg_run_id _ _ _ Hagg).
    rewrite <- surjective_pairing. now apply agg_run_days in Hagg.
Qed.

Lemma record_adjacency_ignores_dates_witness :
  run_id (mk_run_id_row (mk_flagged (row 2 "A" "p" 5 5) true) 1)
  = run_id (mk_run_id_row (mk_flagged (row 4 "A" "p" 5 5) true) 1)
  /\ days (mk_run "A" "p" 1 true 1 5 4)
     = List.length
         (get_group row_run_key (("A", "p")%string, 1)
                    (flagged_daily ex_gap default_threshold)).
Proof.
  split.
  - apply (proj1 record_adjacency_ignores_dates ex_gap default_threshold
                 ("A", "p")%string
                 [mk_run_id_row (mk_flagged (row 1 "A" "p" 5 5) true) 1]
                 (mk_run_id_row (mk_flagged (row 2 "A" "p" 5 5) true) 1)
                 (mk_run_id_row (mk_flagged (row 4 "A" "p" 5 5) true) 1)
                 [mk_run_id_row (mk_flagged (row 5 "A" "p" 5 5) true) 1]).
    + vm_compute. reflexivity.
    + reflexivity.
  - apply (proj1 (proj2 record_adjacency_ignores_dates) ex_gap default_threshold
                 (mk_run "A" "p" 1 true 1 5 4)).
    vm_compute. left. reflexivity.
Defined.

(** ** The ranked view *)

(** Sorting a frame that is in strict [k] order by [c] leaves it ordered by
    [c] first and by [k] among the rows that tie on [c]. *)
Lemma sort_values_then {A} (c k : A -> A -> comparison)
      `{!CmpOk c} `{!CmpOk k} l :
  StronglySorted (fun a b => k a b = Lt) l ->
  StronglySorted (fun a b => lex (c a b) (k a b) = Lt) (sort_values c l).
Proof.
  pose proof (CmpOk_lex c k _ _) as Hlex.
  assert (Htrans : forall a b d,
             lex (c a b) (k a b) = Lt -> lex (c b d) (k b d) = Lt ->
             lex (c a d) (k a d) = Lt)
    by apply (c_lt_trans (fun a b => lex (c a b) (k a b))).
  assert (Hins : forall x m,
             StronglySorted (fun a b => lex (c a b) (k a b) = Lt) m ->
             Forall (fun y => k x y = Lt) m ->
             StronglySorted (fun a b => lex (c a b) (k a b) = Lt)
                            (sort_insert c x m)).
  { intros x m Hs. induction Hs as [|y m Hs IH Hy]; intros Hk; simpl.
    - repeat constructor.
    - inversion Hk as [|? ? Hxy Hk']; subst.
      destruct (cmp_leb (c x y)) eqn:E.
      + assert (Hlt : lex (c x y) (k x y) = Lt).
        { unfold lex. destruct (c x y); [exact Hxy|reflexivity|discriminate]. }
        constructor; [now constructor|].
        constructor; [exact Hlt|].
        eapply Forall_impl; [|exact Hy]. intros z Hz. now apply (Htrans x y z).
      + constructor; [now apply IH|].
        eapply Permutation_Forall; [symmetry; apply sort_insert_perm|].
        constructor; [|exact Hy].
        unfold lex. now rewrite (c_not_le c _ _ E). }
  induction 1 as [|x l Hs IH Hx]; simpl; [constructor|].
  apply Hins; [exact IH|].
  eapply Permutation_Forall; [symmetry; apply sort_values_perm|exact Hx].
Qed.

Lemma StronglySorted_firstn {A} (R : A -> A -> Prop) n l :
  StronglySorted R l -> StronglySorted R (firstn n l).
Proof.
  intros Hs. revert n. induction Hs as [|x l Hs IH Hx]; intros [|n]; simpl;
    try constructor; auto.
  rewrite Forall_forall in *. intros y Hy. apply Hx.
  eapply (In_nth_error) in Hy. destruct Hy as (i & Hi).
  rewrite nth_error_firstn in Hi.
  destruct (i <? n); [|discriminate].
  eapply nth_error_In; eassumption.
Qed.

#[export] Instance CmpOk_rank_group : CmpOk cmp_rank_group.
Proof.
  unfold cmp_rank_group.
  apply (CmpOk_lex cmp_rank (fun a b => cmp (sum_group a) (sum_group b))).
  - typeclasses eauto.
  - apply CmpOk_key.
Qed.

Lemma summary_ranked df thr :
  StronglySorted ranked_before (sort_values cmp_rank (summary_table df thr)).
Proof.
  unfold ranked_before, cmp_rank_group.
  apply (@sort_values_then summary_row cmp_rank
           (fun a b => cmp (sum_group a) (sum_group b))
           CmpOk_rank (CmpOk_key sum_group)).
  rewrite summary_table_eq. apply summary_groups_sorted.
Qed.

Lemma summary_group_inj df thr a b :
  In a (summary_table df thr) -> In b (summary_table df thr) ->
  sum_group a = sum_group b -> a = b.
Proof.
  rewrite summary_table_eq.
  pose proof (summary_groups_sorted (flagged_daily df thr) (run_table df thr)) as Hs.
  induction Hs as [|x l Hs IH Hx]; simpl; [tauto|].
  rewrite Forall_forall in Hx.
  intros [<-|Ha] [<-|Hb] E; auto.
  - specialize (Hx _ Hb). rewrite E in Hx. now apply lt_of_irrefl in Hx.
  - specialize (Hx _ Ha). rewrite E in Hx. now apply lt_of_irrefl in Hx.
Qed.

(** C3.  The ranked view is the first [n] rows of the summary arranged by
    decreasing [max_full_oos_streak_days], then decreasing
    [total_full_oos_days], then increasing (store_name, e_code): the summary
    rows arranged in that strict order exist, and whatever arrangement of
    the summary rows is in that order, the view is its first [n] rows.  The
    program sorts on the two metrics only; rows that tie on both keep the
    order of the summary, which is the order of (store_name, e_code). *)
Theorem ranked_view_order (df : list daily_row) (thr : Q) (n : nat) :
  let summary := summary_table df thr in
  (exists ranked,
      Permutation ranked summary
      /\ StronglySorted ranked_before ranked
      /\ top n summary = firstn n ranked)
  /\ StronglySorted ranked_before (top n summary)
  /\ (forall ranked,
         Permutation ranked summary ->
         StronglySorted ranked_before ranked ->
         top n summary = firstn n ranked).
Proof.
  intros summary. unfold summary.
  pose proof (summary_ranked df thr) as Hr.
  split; [|split].
  - exists (sort_values cmp_rank (summary_table df thr)).
    split; [apply sort_values_perm|]. split; [exact Hr|reflexivity].
  - unfold top. now apply StronglySorted_firstn.
  - intros ranked HP Hs. unfold top. f_equal.
    apply (sorted_perm_eq cmp_rank_group).
    + intros x y Hx Hy E. apply sort_values_In in Hx, Hy.
      apply (summary_group_inj df thr); auto.
      unfold cmp_rank_group, lex in E.
      destruct (cmp_rank x y); try discriminate. now apply cmp_eq.
    + eapply StronglySorted_impl_in; [|exact Hr].
      intros a b _ _. apply c_lt_le.
    + eapply StronglySorted_impl_in; [|exact Hs].
      intros a b _ _. apply c_lt_le.
    + rewrite sort_values_perm. now symmetry.
Qed.

Lemma ranked_view_order_witness :
  top 3 (summary_table ex_rank default_threshold)
  = firstn 3 [ mk_summary "C" "p" 1 2 2 2; mk_summary "A" "p" 1 1 1 1;
               mk_summary "A" "q" 1 1 1 1; mk_summary "B" "p" 1 1 1 1 ].
Proof.
  apply (proj2 (proj2 (ranked_view_order ex_rank default_threshold 3))).
  - change (summary_table ex_rank default_threshold)
      with ([ mk_summary "A" "p" 1 1 1 1; mk_summary "A" "q" 1 1 1 1;
              mk_summary "B" "p" 1 1 1 1 ] ++ [ mk_summary "C" "p" 1 2 2 2 ]).
    apply Permutation_cons_append.
  - repeat constructor.
Defined.

(** ** Row order of the input *)

Lemma cmp_group_dt_eq (a b : flagged_row) :
  cmp_group_dt a b = Eq ->
  daily_key (daily a) = daily_key (daily b).
Proof.
  unfold cmp_group_dt, lex, daily_key.
  destruct (cmp (flagged_group a) (flagged_group b)) eqn:Eg; try discriminate.
  intros Ed. apply cmp_eq in Eg, Ed.
  unfold flagged_group, daily_group in Eg. injection Eg as -> ->.
  now rewrite Ed.
Qed.

Lemma NoDup_map_inj {A B} (f : A -> B) l x y :
  NoDup (map f l) -> In x l -> In y l -> f x = f y -> x = y.
Proof.
  induction l as [|a l IH]; simpl; [tauto|].
  intros Hnd. inversion Hnd as [|? ? Hnin Hnd']; subst.
  intros [->|Hx] [->|Hy] E; auto.
  - exfalso. apply Hnin. rewrite E. now apply in_map.
  - exfalso. apply Hnin. rewrite <- E. now apply in_map.
Qed.

Lemma sorted_flagged_perm_eq df1 df2 thr :
  Permutation df1 df2 ->
  NoDup (map daily_key df1) ->
  sort_values cmp_group_dt (add_is_full_oos thr df1)
  = sort_values cmp_group_dt (add_is_full_oos thr df2).
Proof.
  intros HP Hnd. apply sort_values_perm_eq.
  - typeclasses eauto.
  - intros x y Hx Hy E. unfold add_is_full_oos in Hx, Hy.
    apply in_map_iff in Hx, Hy.
    destruct Hx as (a & <- & Ha), Hy as (b & <- & Hb).
    apply cmp_group_dt_eq in E. cbn [daily] in E.
    now rewrite (NoDup_map_inj daily_key df1 a b Hnd Ha Hb E).
  - unfold add_is_full_oos. now apply Permutation_map.
Qed.

(** C10.  When the input has at most one row per (store_name, e_code, dt),
    the three returned tables, and so the run table and the summary, are the
    same for every arrangement of the input rows. *)
Theorem row_order_does_not_matter (df1 df2 : list daily_row) (thr : Q) :
  Permutation df1 df2 ->
  NoDup (map daily_key df1) ->
  run_table df1 thr = run_table df2 thr
  /\ summary_table df1 thr = summary_table df2 thr
  /\ flagged_daily df1 thr = flagged_daily df2 thr.
Proof.
  intros HP Hnd.
  assert (E : calc_full_oos_streaks df1 thr = calc_full_oos_streaks df2 thr).
  { unfold calc_full_oos_streaks.
    now rewrite (sorted_flagged_perm_eq df1 df2 thr HP Hnd). }
  unfold run_table, summary_table, flagged_daily. now rewrite E.
Qed.

Lemma row_order_does_not_matter_witness :
  run_table ex_unordered default_threshold
  = run_table (rev ex_unordered) default_threshold
  /\ summary_table ex_unordered default_threshold
     = summary_table (rev ex_unordered) default_threshold
  /\ flagged_daily ex_unordered default_threshold
     = flagged_daily (rev ex_unordered) default_threshold.
Proof.
  apply row_order_does_not_matter.
  - apply Permutation_rev.
  - repeat constructor; simpl; intuition discriminate.
Defined.

(** ** The flag *)

Lemma full_oos_flag_iff thr rate :
  full_oos_flag thr rate = true <-> (thr <= fillna rate (0 # 1))%Q.
Proof. unfold full_oos_flag. apply Qle_bool_iff. Qed.

(** C6.  For a positive threshold, as the caller passes (0.999), every row
    of the input is classified, by a total function that raises nothing: a
    row with a rate is flagged exactly when the rate is at least the
    threshold, and a row whose rate is missing ([total_cnt] is 0) is not
    flagged.  With the threshold 0.999, the rate 0.9991 is flagged and
    0.9989 is not, as decimal fractions and as the floats Python reads. *)
Theorem flag_is_threshold_test (df : list daily_row) (thr : Q) :
  (0 < thr)%Q ->
  (forall r, In r df ->
             exists x, In x (flagged_daily df thr) /\ daily (flagged x) = r)
  /\ (forall x,
         In x (flagged_daily df thr) ->
         (forall q, oos_rate (daily (flagged x)) = Some q ->
                    (row_flag x = true <-> (thr <= q)%Q))
         /\ (oos_rate (daily (flagged x)) = None -> row_flag x = false))
  /\ full_oos_flag default_threshold (Some (9991 # 10000)%Q) = true
  /\ full_oos_flag default_threshold (Some (9989 # 10000)%Q) = false
  /\ full_oos_flag float_0_999 (Some float_0_9991) = true
  /\ full_oos_flag float_0_999 (Some float_0_9989) = false.
Proof.
  intros Hpos. split; [|split; [|repeat split; vm_compute; reflexivity]].
  - intros r Hr.
    apply (Permutation_in _ (Permutation_sym (flagged_daily_perm df thr))) in Hr.
    apply in_map_iff in Hr. destruct Hr as (x & E & Hx). now exists x.
  - intros x Hx. rewrite (flagged_daily_flag df thr x Hx). split.
    + intros q ->. apply (full_oos_flag_iff thr (Some q)).
    + intros ->. destruct (full_oos_flag thr None) eqn:E; [|reflexivity].
      apply full_oos_flag_iff in E. cbn [fillna] in E.
      exfalso. now apply (Qlt_not_le _ _ Hpos).
Qed.

Lemma flag_is_threshold_test_witness :
  (0 < default_threshold)%Q
  /\ row_flag (mk_run_id_row (mk_flagged (row 2 "A" "p" 0 0) false) 2) = false.
Proof.
  assert (Hpos : (0 < default_threshold)%Q) by reflexivity.
  split; [exact Hpos|].
  apply (proj2 (proj1 (proj2 (flag_is_threshold_test ex_null default_threshold
                                                     Hpos))
                      (mk_run_id_row (mk_flagged (row 2 "A" "p" 0 0) false) 2)
                      ltac:(vm_compute; right; left; reflexivity))).
  reflexivity.
Defined.

(** ** The call on the heap *)

Lemma nth_error_ext (h t : heap) k :
  nth_error (h ++ t) (List.length h + k) = nth_error t k.
Proof.
  rewrite nth_error_app2 by lia. f_equal. lia.
Qed.

Lemma heap_set_ext (h t : heap) k f :
  heap_set (h ++ t) (List.length h + k) f = h ++ heap_set t k f.
Proof.
  induction h as [|g h IH]; simpl; [reflexivity|].
  now rewrite IH.
Qed.

Lemma bind_some {A B} (c : M A) (k : A -> M B) h a h' :
  c h = Some (a, h') -> bind c k h = k a h'.
Proof. unfold bind. now intros ->. Qed.

Lemma load_at (h : heap) p f :
  nth_error h p = Some f -> load p h = Some (f, h).
Proof. unfold load. now intros ->. Qed.

Lemma load_ext (h t : heap) k f :
  nth_error t k = Some f -> load (List.length h + k) (h ++ t) = Some (f, h ++ t).
Proof. intros E. apply load_at. now rewrite nth_error_ext. Qed.

Lemma store_ext (h t : heap) k f g :
  nth_error t k = Some g ->
  store (List.length h + k) f (h ++ t) = Some (tt, h ++ heap_set t k f).
Proof.
  intros E. unfold store. now rewrite nth_error_ext, E, heap_set_ext.
Qed.

Lemma alloc_fresh (h : heap) f :
  alloc f h = Some (List.length h + 0, h ++ [f]).
Proof. unfold alloc. now rewrite Nat.add_0_r. Qed.

Lemma alloc_ext (h t : heap) f :
  alloc f (h ++ t) = Some (List.length h + List.length t, h ++ (t ++ [f])).
Proof. unfold alloc. now rewrite length_app, app_assoc. Qed.

Ltac heap_load :=
  erewrite bind_some
    by (erewrite bind_some by (apply load_ext; reflexivity); reflexivity);
  cbv beta.
Ltac heap_store :=
  erewrite bind_some by (eapply store_ext; reflexivity);
  cbv beta; cbn [heap_set].
Ltac heap_alloc :=
  erewrite bind_some by apply alloc_ext;
  cbv beta; cbn [List.length app].

(** The call returns three new frames and leaves a heap that extends the
    old one. *)
Lemma calc_obj_run (h : heap) (p : ref) (rows : list daily_row) (thr : Q) :
  nth_error h p = Some (DailyFrame rows) ->
  calc_full_oos_streaks_obj p thr h
  = Some ((List.length h + 1, List.length h + 2, List.length h + 6),
          h ++ [ FlaggedFrame (add_is_full_oos thr rows);
                 RunIdFrame (flagged_daily rows thr);
                 RunFrame (run_table rows thr);
                 RunFrame (filter run_is_full_oos (run_table rows thr));
                 StreakFrame (max_streaks
                                (filter run_is_full_oos (run_table rows thr)));
                 TotalFrame (total_full_days (flagged_daily rows thr));
                 SummaryFrame (summary_table rows thr) ]).
Proof.
  intros Hp. unfold calc_full_oos_streaks_obj.
  unfold load_daily, load_flagged, load_run_id, load_runs, load_streaks,
    load_totals, load_summary.
  erewrite bind_some by (erewrite bind_some by (apply load_at; exact Hp);
                         reflexivity).
  erewrite bind_some by apply alloc_fresh.
  repeat first [ heap_load | heap_store | heap_alloc ].
  reflexivity.
Qed.

(** C9.  A call on a reference [p] to the caller's daily frame returns
    references to three frames that did not exist before the call, holding
    the flagged daily table, the run table and the summary; every frame
    that existed before the call, the caller's frame among them, is the same
    after it: still a daily frame, with the same rows in the same order and
    no further column. *)
Theorem input_frame_is_not_mutated (h : heap) (p : ref)
        (rows : list daily_row) (thr : Q) :
  nth_error h p = Some (DailyFrame rows) ->
  exists (d r s : ref) (h' : heap),
    calc_full_oos_streaks_obj p thr h = Some ((d, r, s), h')
    /\ nth_error h' p = Some (DailyFrame rows)
    /\ (forall q, q < List.length h -> nth_error h' q = nth_error h q)
    /\ List.length h <= d /\ List.length h <= r /\ List.length h <= s
    /\ nth_error h' d = Some (RunIdFrame (flagged_daily rows thr))
    /\ nth_error h' r = Some (RunFrame (run_table rows thr))
    /\ nth_error h' s = Some (SummaryFrame (summary_table rows thr)).
Proof.
  intros Hp. eexists _, _, _, _.
  split; [apply (calc_obj_run h p rows thr Hp)|].
  assert (Hlt : p < List.length h)
    by (apply nth_error_Some; congruence).
  split; [now rewrite nth_error_app1|].
  split; [intros q Hq; now rewrite nth_error_app1|].
  repeat split; try lia; rewrite nth_error_ext; reflexivity.
Qed.

Lemma input_frame_is_not_mutated_witness :
  exists (d r s : ref) (h' : heap),
    calc_full_oos_streaks_obj 0 default_threshold [DailyFrame ex_six]
    = Some ((d, r, s), h')
    /\ nth_error h' 0 = Some (DailyFrame ex_six)
    /\ (forall q, q < 1 -> nth_error h' q = nth_error [DailyFrame ex_six] q)
    /\ 1 <= d /\ 1 <= r /\ 1 <= s
    /\ nth_error h' d
       = Some (RunIdFrame (flagged_daily ex_six default_threshold))
    /\ nth_error h' r = Some (RunFrame (run_table ex_six default_threshold))
    /\ nth_error h' s
       = Some (SummaryFrame (summary_table ex_six default_threshold)).
Proof.
  apply (input_frame_is_not_mutated [DailyFrame ex_six] 0 ex_six
                                    default_threshold).
  reflexivity.
Defined.

(** ** Inputs with duplicate or out-of-order dates *)

Lemma list_sum_add {A} (f g : A -> nat) l :
  list_sum (map (fun x => f x + g x) l)
  = list_sum (map f l) + list_sum (map g l).
Proof.
  induction l as [|x l IH]; simpl; [reflexivity|]. rewrite IH. lia.
Qed.

Lemma list_sum_indicator {K} `{OrdLaws K} (a : K) ks :
  NoDup ks -> In a ks ->
  list_sum (map (fun k => if key_eqb a k then 1 else 0) ks) = 1.
Proof.
  induction 1 as [|k ks Hk Hnd IH]; simpl; [tauto|].
  intros [->|Ha].
  - rewrite key_eqb_refl. f_equal.
    clear IH Hnd. induction ks as [|k ks IH]; simpl; [reflexivity|].
    rewrite (proj2 (key_eqb_neq a k)) by (intros ->; apply Hk; now left).
    apply IH. intros Hin. apply Hk. now right.
  - rewrite (proj2 (key_eqb_neq a k)) by (intros ->; contradiction).
    now apply IH.
Qed.

(** The groups of a frame hold each of its rows once. *)
Lemma groups_count {A K} `{OrdLaws K} (key : A -> K) l ks :
  NoDup ks -> (forall x, In x l -> In (key x) ks) ->
  list_sum (map (fun k => List.length (get_group key k l)) ks) = List.length l.
Proof.
  intros Hnd. induction l as [|x l IH]; intros Hin.
  - clear. induction ks as [|k ks IH]; simpl; auto.
  - rewrite (map_ext _
       (fun k => (if key_eqb (key x) k then 1 else 0)
                 + List.length (get_group key k l))).
    + rewrite list_sum_add, list_sum_indicator, IH; auto.
      * intros y Hy. apply Hin. now right.
      * apply Hin. now left.
    + intros k. unfold get_group. simpl.
      now destruct (key_eqb (key x) k).
Qed.

Lemma make_runs_days D :
  list_sum (map days (make_runs D)) = List.length D.
Proof.
  rewrite <- (groups_count row_run_key D (group_keys row_run_key D)).
  - rewrite make_runs_unfold.
    assert (Hne : forall k, In k (group_keys row_run_key D) ->
                            get_group row_run_key k D <> [])
      by (intros k; apply get_group_nonempty).
    induction (group_keys row_run_key D) as [|k ks IH]; [reflexivity|].
    cbn [flat_map map]. rewrite map_app, list_sum_app.
    destruct (agg_run_some k (get_group row_run_key k D)) as (r & Hr).
    { apply Hne. now left. }
    rewrite Hr. cbn [option_list map].
    change (list_sum [days r]) with (days r + 0).
    change (list_sum (?a :: ?l)) with (a + list_sum l).
    rewrite (agg_run_days _ _ _ Hr), IH; [lia|].
    intros k' Hk'. apply Hne. now right.
  - apply group_keys_NoDup.
  - intros x Hx. apply group_keys_In. eauto.
Qed.

Lemma flagged_daily_length df thr :
  List.length (flagged_daily df thr) = List.length df.
Proof.
  rewrite <- (length_map flagged), flagged_daily_flagged.
  rewrite sort_values_length. unfold add_is_full_oos. apply length_map.
Qed.

Lemma add_is_full_oos_sorted df thr :
  add_is_full_oos thr (sort_values cmp_daily df)
  = sort_values cmp_group_dt (add_is_full_oos thr df).
Proof.
  unfold add_is_full_oos. symmetry.
  apply (sort_values_map
           (fun r => mk_flagged r (full_oos_flag thr (oos_rate r)))
           cmp_group_dt).
Qed.

(** C1 as stated: a call on an input with a duplicate or out-of-order date
    would raise.  It fails: the function holds no such check.  Two rows of
    one group with the same date are both kept and make a run of two days;
    rows out of date order are sorted. *)
Lemma ordering_violation_is_not_rejected :
  ~ (forall df thr,
        spec_ordering_violation df = true ->
        calc_full_oos_streaks_obj 0 thr [DailyFrame df] = None)
  /\ spec_ordering_violation ex_dup = true
  /\ run_table ex_dup default_threshold = [ mk_run "A" "p" 1 true 1 1 2 ]
  /\ spec_ordering_violation ex_unordered = true
  /\ run_table ex_unordered default_threshold
     = [ mk_run "A" "p" 1 true 1 1 1; mk_run "A" "p" 2 false 2 2 1;
         mk_run "A" "p" 3 true 3 3 1 ].
Proof.
  split; [|repeat split; vm_compute; reflexivity].
  intros H. specialize (H ex_dup default_threshold eq_refl).
  rewrite (calc_obj_run [DailyFrame ex_dup] 0 ex_dup default_threshold eq_refl)
    in H.
  discriminate.
Qed.

(** C1, amended.  The function raises no ordering error.  A call on a daily
    frame always returns; the tables are those of the input sorted by
    (store_name, e_code, dt), rows with equal keys in their input order; and
    the [days] of the run table add up to the number of input rows, so rows
    with a duplicate date are all kept and counted. *)
Theorem ordering_is_established_not_checked :
  (forall (h : heap) (p : ref) df thr,
      nth_error h p = Some (DailyFrame df) ->
      calc_full_oos_streaks_obj p thr h <> None)
  /\ (forall df thr,
         calc_full_oos_streaks df thr
         = calc_full_oos_streaks (sort_values cmp_daily df) thr)
  /\ (forall df thr,
         list_sum (map days (run_table df thr)) = List.length df).
Proof.
  split; [|split].
  - intros h p df thr Hp. now rewrite (calc_obj_run h p df thr Hp).
  - intros df thr. unfold calc_full_oos_streaks.
    rewrite add_is_full_oos_sorted.
    now rewrite (sort_values_idem cmp_group_dt).
  - intros df thr. rewrite run_table_eq, make_runs_days.
    apply flagged_daily_length.
Qed.

Lemma ordering_is_established_not_checked_witness :
  calc_full_oos_streaks_obj 0 default_threshold [DailyFrame ex_dup] <> None.
Proof.
  apply (proj1 ordering_is_established_not_checked [DailyFrame ex_dup] 0 ex_dup).
  reflexivity.
Defined.

(** * Further properties of the returned tables *)

(** ** Run identifiers and the order of the run table *)

Lemma group_keys_of_steps G :
  Sorted id_step G ->
  match G with
  | [] => group_keys run_id G = []
  | x :: _ => exists k, group_keys run_id G = seq (run_id x) (S k)
  end.
Proof.
  induction G as [|x G IH]; intros Hs; [reflexivity|].
  inversion Hs as [|? ? Hs' Hhd]; subst.
  specialize (IH Hs').
  change (group_keys run_id (x :: G))
    with (key_insert (run_id x) (group_keys run_id G)).
  destruct G as [|y G].
  - exists 0. reflexivity.
  - destruct IH as (k & ->).
    inversion Hhd as [|? ? Hxy]; subst. unfold id_step in Hxy.
    cbn [seq key_insert].
    destruct (Bool.eqb (row_flag y) (row_flag x)).
    + replace (run_id y) with (run_id x) by lia.
      change (cmp (run_id x) (run_id x)) with (Nat.compare (run_id x) (run_id x)).
      rewrite Nat.compare_refl. exists k. reflexivity.
    + replace (run_id y) with (S (run_id x)) by lia.
      change (cmp (run_id x) (S (run_id x)))
        with (Nat.compare (run_id x) (S (run_id x))).
      rewrite (proj2 (Nat.compare_lt_iff _ _)) by lia.
      exists (S k). reflexivity.
Qed.

Lemma flagged_daily_first_id df thr g :
  match get_group row_group g (flagged_daily df thr) with
  | [] => True
  | x :: _ => run_id x = 1
  end.
Proof.
  pose proof (assign_run_id_ids
                (sort_values cmp_group_dt (add_is_full_oos thr df)) g) as Hids.
  cbv zeta in Hids. rewrite <- flagged_daily_eq in Hids.
  apply (shifted_ids_step _ None 0) in Hids.
  destruct Hids as [_ Hfirst].
  now destruct (get_group row_group g (flagged_daily df thr)).
Qed.

(** X1.  The run identifiers of a group in the run table are 1, 2, ..., k
    in this order. *)
Theorem run_ids_count_from_one (df : list daily_row) (thr : Q) (g : group_key) :
  map run_run_id (get_group run_group g (run_table df thr))
  = seq 1 (List.length (get_group run_group g (run_table df thr))).
Proof.
  assert (E : exists n,
             map run_run_id (get_group run_group g (run_table df thr))
             = seq 1 n).
  { rewrite run_table_eq, group_run_ids.
    pose proof (group_keys_of_steps _ (flagged_daily_steps df thr g)) as Hk.
    pose proof (flagged_daily_first_id df thr g) as H1.
    destruct (get_group row_group g (flagged_daily df thr)) as [|x G].
    - exists 0. exact Hk.
    - destruct Hk as (k & ->). rewrite H1. eauto. }
  destruct E as (n & E). rewrite E. f_equal.
  apply (f_equal (@List.length nat)) in E.
  now rewrite length_map, length_seq in E.
Qed.

Lemma make_runs_keys D :
  map (fun r => (run_group r, run_run_id r)) (make_runs D)
  = group_keys row_run_key D.
Proof.
  rewrite make_runs_unfold.
  assert (Hne : forall k, In k (group_keys row_run_key D) ->
                          get_group row_run_key k D <> [])
    by (intros k; apply get_group_nonempty).
  induction (group_keys row_run_key D) as [|k ks IH]; [reflexivity|].
  cbn [flat_map]. rewrite map_app.
  destruct (agg_run_some k (get_group row_run_key k D)) as (r & Hr).
  { apply Hne. now left. }
  rewrite Hr. cbn [option_list map app].
  rewrite (agg_run_group _ _ _ Hr), (agg_run_id _ _ _ Hr).
  rewrite <- surjective_pairing. f_equal.
  apply IH. intros k' Hk'. apply Hne. now right.
Qed.

(** X2.  The run table is in strictly increasing order of
    (store_name, e_code, run_id): it has one row per run, group after group
    and run after run. *)
Theorem run_table_key_order (df : list daily_row) (thr : Q) :
  StronglySorted
    (fun a b => lt_of (run_group a, run_run_id a) (run_group b, run_run_id b))
    (run_table df thr).
Proof.
  rewrite run_table_eq.
  apply (StronglySorted_map_inv lt_of
           (fun r => (run_group r, run_run_id r))).
  rewrite make_runs_keys. apply group_keys_sorted.
Qed.

(** ** Runs as date intervals *)

Lemma run_gaps_sorted (R : Z -> Z -> Prop) Rg cs :
  Forall2 run_covers Rg cs ->
  StronglySorted (fun a b => R (row_dt a) (row_dt b)) (List.concat cs) ->
  StronglySorted (fun a b => R (end_dt a) (start_dt b)) Rg.
Proof.
  induction 1 as [|r c Rg cs Hrc HF IH]; intros Hs; [constructor|].
  cbn [List.concat] in Hs.
  destruct (StronglySorted_app_inv _ _ _ Hs) as (_ & Hs2 & H12).
  constructor; [now apply IH|].
  apply Forall_forall. intros r' Hr'.
  destruct (Forall2_In_left _ _ _ _ HF Hr') as (c' & Hc' & Hrc').
  destruct Hrc as (_ & _ & _ & _ & Hend).
  destruct Hrc' as (_ & _ & _ & Hstart' & _).
  apply in_map_iff in Hend, Hstart'.
  destruct Hend as (x & <- & Hx), Hstart' as (y & <- & Hy).
  apply H12; [exact Hx|].
  apply in_concat. eauto.
Qed.

Lemma run_covers_bounds r c : run_covers r c -> (start_dt r <= end_dt r)%Z.
Proof.
  intros (Hne & _ & Hall & _).
  destruct c as [|x c]; [congruence|].
  inversion Hall as [|? ? (_ & _ & Hx) _]; subst. lia.
Qed.

(** X3.  The runs of a group are date intervals that follow each other: a
    run does not end before it starts, and a run later in the table does
    not start before an earlier one ends; with at most one input row per
    group and date it starts strictly after, so the intervals are
    disjoint. *)
Theorem runs_are_successive_intervals (df : list daily_row) (thr : Q)
        (g : group_key) :
  let Rg := get_group run_group g (run_table df thr) in
  Forall (fun r => (start_dt r <= end_dt r)%Z) Rg
  /\ StronglySorted (fun a b => (end_dt a <= start_dt b)%Z) Rg
  /\ (NoDup (map daily_key df) ->
      StronglySorted (fun a b => (end_dt a < start_dt b)%Z) Rg).
Proof.
  intros Rg. unfold Rg.
  pose proof (group_covers df thr g) as HF.
  split; [|split].
  - apply Forall_forall. intros r Hr.
    destruct (Forall2_In_left _ _ _ _ HF Hr) as (c & _ & Hc).
    now apply run_covers_bounds in Hc.
  - apply (run_gaps_sorted Z.le _ _ HF).
    rewrite chunks_concat. apply flagged_daily_dates.
  - intros Hnd. apply (run_gaps_sorted Z.lt _ _ HF).
    rewrite chunks_concat. now apply flagged_daily_dates_strict.
Qed.

Lemma increasing_dates_count (lo hi : Z) l :
  StronglySorted (fun a b => (row_dt a < row_dt b)%Z) l ->
  Forall (fun x => (lo <= row_dt x <= hi)%Z) l ->
  l <> [] ->
  (Z.of_nat (List.length l) <= hi - lo + 1)%Z.
Proof.
  intros Hs. revert lo.
  induction Hs as [|x l Hs IH Hx]; intros lo Hall Hne; [congruence|].
  inversion Hall as [|? ? Hxb Hl]; subst.
  destruct l as [|y l]; [simpl; lia|].
  assert (Hb : (Z.of_nat (List.length (y :: l)) <= hi - (row_dt x + 1) + 1)%Z).
  { apply IH; [|discriminate].
    rewrite Forall_forall in *. intros z Hz.
    specialize (Hx z Hz). specialize (Hl z Hz). lia. }
  change (List.length (x :: y :: l)) with (S (List.length (y :: l))).
  lia.
Qed.

Lemma covered_runs_within_span Rg cs :
  Forall2 run_covers Rg cs ->
  StronglySorted (fun a b => (row_dt a < row_dt b)%Z) (List.concat cs) ->
  Forall (fun r => (Z.of_nat (days r) <= end_dt r - start_dt r + 1)%Z) Rg.
Proof.
  induction 1 as [|r c Rg cs Hrc HF IH]; intros Hs; [constructor|].
  cbn [List.concat] in Hs.
  destruct (StronglySorted_app_inv _ _ _ Hs) as (Hs1 & Hs2 & _).
  constructor; [|now apply IH].
  destruct Hrc as (Hne & Hd & Hall & _). rewrite Hd.
  apply increasing_dates_count; [exact Hs1| |exact Hne].
  eapply Forall_impl; [|exact Hall]. now intros x (_ & _ & Hx).
Qed.

Lemma run_within_span df thr r :
  NoDup (map daily_key df) ->
  In r (run_table df thr) ->
  (Z.of_nat (days r) <= end_dt r - start_dt r + 1)%Z.
Proof.
  intros Hnd Hr.
  assert (Hg : In r (get_group run_group (run_group r) (run_table df thr)))
    by (apply get_group_In; auto).
  pose proof (covered_runs_within_span _ _ (group_covers df thr (run_group r)))
    as Hall.
  rewrite chunks_concat in Hall.
  specialize (Hall (flagged_daily_dates_strict df thr (run_group r) Hnd)).
  rewrite Forall_forall in Hall. now apply Hall.
Qed.

(** X4.  With at most one input row per group and date, the [days] of a run
    never exceed the calendar days from its start to its end, and the same
    holds for the streak of every summary row: a run counts rows, so it can
    only undercount the days it spans. *)
Theorem days_within_calendar_span (df : list daily_row) (thr : Q) :
  NoDup (map daily_key df) ->
  (forall r, In r (run_table df thr) ->
             (Z.of_nat (days r) <= end_dt r - start_dt r + 1)%Z)
  /\ (forall s, In s (summary_table df thr) ->
                (Z.of_nat (max_full_oos_streak_days s)
                 <= max_streak_end_dt s - max_streak_start_dt s + 1)%Z).
Proof.
  intros Hnd. split.
  - intros r. now apply run_within_span.
  - intros s Hs. rewrite summary_table_eq in Hs.
    destruct (In_summary _ _ _ Hs) as (m & l1 & l2 & Hl & _ & _ & ->).
    assert (Hm : In m (filter run_is_full_oos
                         (get_group run_group
                            (sum_group (summary_of_streak
                                          (flagged_daily df thr)
                                          (streak_of_run m)))
                            (run_table df thr))))
      by (rewrite Hl; apply in_elt).
    apply filter_In in Hm. destruct Hm as [Hm _].
    apply get_group_In in Hm. destruct Hm as [Hm _].
    exact (run_within_span df thr m Hnd Hm).
Qed.

Lemma days_within_calendar_span_witness :
  (Z.of_nat (days (mk_run "A" "p" 1 true 1 5 4)) <= 5 - 1 + 1)%Z
  /\ (Z.of_nat (max_full_oos_streak_days (mk_summary "A" "p" 1 5 4 4))
      <= 5 - 1 + 1)%Z.
Proof.
  assert (Hnd : NoDup (map daily_key ex_gap))
    by (repeat constructor; simpl; intuition discriminate).
  split.
  - apply (proj1 (days_within_calendar_span ex_gap default_threshold Hnd)
                 (mk_run "A" "p" 1 true 1 5 4)).
    vm_compute. left. reflexivity.
  - apply (proj2 (days_within_calendar_span ex_gap default_threshold Hnd)
                 (mk_summary "A" "p" 1 5 4 4)).
    vm_compute. left. reflexivity.
Defined.

(** ** The summary and the daily table as a whole *)

(** X5.  The summary has at most one row per group: its rows are in
    strictly increasing (store_name, e_code) order, and every row belongs
    to a group of the input. *)
Theorem summary_one_row_per_group (df : list daily_row) (thr : Q) :
  StronglySorted (fun a b => lt_of (sum_group a) (sum_group b))
                 (summary_table df thr)
  /\ Forall (fun s => In (sum_group s) (map daily_group df))
            (summary_table df thr).
Proof.
  split.
  - rewrite summary_table_eq. apply summary_groups_sorted.
  - apply Forall_forall. intros s Hs.
    assert (Hg : In (sum_group s) (map sum_group (summary_table df thr)))
      by now apply in_map.
    rewrite summary_table_eq in Hg.
    apply summary_has_group, flagged_run_iff_flagged_row in Hg.
    destruct Hg as (x & Hx & Hg & _).
    apply (in_map (fun x => daily (flagged x))) in Hx.
    apply (Permutation_in _ (flagged_daily_perm df thr)) in Hx.
    rewrite <- Hg. now apply (in_map daily_group) in Hx.
Qed.

#[export] Instance CmpOk_daily : CmpOk cmp_daily.
Proof.
  unfold cmp_daily.
  apply (CmpOk_lex (fun a b => cmp (daily_group a) (daily_group b))
                   (fun a b => cmp (dt a) (dt b)));
    apply CmpOk_key.
Qed.

Lemma flagged_daily_rows df thr :
  map (fun x => daily (flagged x)) (flagged_daily df thr)
  = sort_values cmp_daily df.
Proof.
  rewrite <- (map_map flagged daily), flagged_daily_flagged.
  rewrite <- add_is_full_oos_sorted. unfold add_is_full_oos.
  rewrite map_map. apply map_id.
Qed.

Lemma all_related_sorted {A} (R : A -> A -> Prop) l :
  (forall a b, In a l -> In b l -> R a b) -> StronglySorted R l.
Proof.
  induction l as [|x l IH]; intros H; constructor.
  - apply IH. intros a b Ha Hb. apply H; now right.
  - apply Forall_forall. intros y Hy. apply H; [now left|now right].
Qed.

Lemma cmp_daily_same_key a b :
  daily_key a = daily_key b -> cmp_daily a b = Eq.
Proof.
  unfold daily_key, cmp_daily, daily_group. intros E.
  injection E as -> -> ->. now rewrite !cmp_refl.
Qed.

(** X6.  The returned daily table is the input sorted by
    (store_name, e_code, dt) with the flag on every row: it holds the same
    rows, in that order, and rows of the input with the same group and date
    keep the order they had in the input. *)
Theorem daily_table_is_stable_sort (df : list daily_row) (thr : Q) :
  let rows := map (fun x => daily (flagged x)) (flagged_daily df thr) in
  Permutation rows df
  /\ StronglySorted (le_of cmp_daily) rows
  /\ (forall k, get_group daily_key k rows = get_group daily_key k df)
  /\ Forall (fun x => row_flag x
                      = full_oos_flag thr (oos_rate (daily (flagged x))))
            (flagged_daily df thr).
Proof.
  intros rows. unfold rows. rewrite flagged_daily_rows.
  split; [apply sort_values_perm|].
  split; [apply sort_values_sorted; typeclasses eauto|].
  split.
  - intros k. unfold get_group.
    rewrite (filter_sort_values cmp_daily).
    apply (sort_values_id cmp_daily), all_related_sorted.
    intros a b Ha Hb. apply filter_In in Ha, Hb.
    destruct Ha as [_ Ha], Hb as [_ Hb].
    apply key_eqb_eq in Ha, Hb.
    unfold le_of. rewrite cmp_daily_same_key; [reflexivity|congruence].
  - apply Forall_forall. intros x. apply flagged_daily_flag.
Qed.

(** ** The threshold *)

Lemma full_oos_flag_antitone thr1 thr2 rate :
  (thr1 <= thr2)%Q ->
  full_oos_flag thr2 rate = true -> full_oos_flag thr1 rate = true.
Proof.
  intros Hle H2. apply full_oos_flag_iff in H2. apply full_oos_flag_iff.
  eapply Qle_trans; eassumption.
Qed.

Lemma Permutation_filter_gen {A} (p : A -> bool) l1 l2 :
  Permutation l1 l2 -> Permutation (filter p l1) (filter p l2).
Proof.
  induction 1 as [|x l1 l2 HP IH|x y l|l1 l2 l3 HP1 IH1 HP2 IH2]; simpl.
  - constructor.
  - destruct (p x); [now constructor|exact IH].
  - destruct (p x), (p y); try apply perm_swap; reflexivity.
  - now transitivity (filter p l2).
Qed.

Lemma filter_map_comm {A B} (f : A -> B) (p : B -> bool) l :
  filter p (map f l) = map f (filter (fun x => p (f x)) l).
Proof.
  induction l as [|x l IH]; simpl; [reflexivity|].
  destruct (p (f x)); simpl; now rewrite IH.
Qed.

(** The flagged days of a group, counted on the input. *)
Lemma full_days_on_input df thr g :
  full_days_of (flagged_daily df thr) g
  = List.length
      (filter (fun r => key_eqb (daily_group r) g
                        && full_oos_flag thr (oos_rate r)) df).
Proof.
  unfold full_days_of.
  rewrite <- (Permutation_length
                (Permutation_filter_gen _ _ _ (flagged_daily_perm df thr))).
  rewrite filter_map_comm, length_map.
  unfold get_group. f_equal.
  pose proof (flagged_daily_flag df thr) as Hflag. revert Hflag.
  generalize (flagged_daily df thr) as l. intros l.
  induction l as [|y l IH]; intros Hflag; [reflexivity|].
  cbn [filter].
  rewrite <- (Hflag y) by now left.
  change (daily_group (daily (flagged y))) with (row_group y).
  destruct (row_flag y); cbn [filter];
    destruct (key_eqb (row_group y) g); cbn [andb];
    rewrite IH by (intros z Hz; apply Hflag; now right); reflexivity.
Qed.

Lemma filter_length_le {A} (p q : A -> bool) l :
  (forall x, In x l -> p x = true -> q x = true) ->
  List.length (filter p l) <= List.length (filter q l).
Proof.
  induction l as [|x l IH]; intros H; [reflexivity|].
  cbn [filter].
  assert (IH' : List.length (filter p l) <= List.length (filter q l))
    by (apply IH; intros y Hy; apply H; now right).
  destruct (p x) eqn:Ep.
  - rewrite (H x) by (auto; now left). simpl. lia.
  - destruct (q x); simpl; lia.
Qed.

Lemma In_summary_total df thr s :
  In s (summary_table df thr) ->
  total_full_oos_days s = full_days_of (flagged_daily df thr) (sum_group s).
Proof.
  rewrite summary_table_eq, make_summary_unfold.
  intros Hs. apply in_map_iff in Hs. destruct Hs as (s0 & <- & _).
  reflexivity.
Qed.

Lemma summary_row_of_group df thr g :
  (exists x, In x (flagged_daily df thr)
             /\ row_group x = g /\ row_flag x = true) ->
  exists s, In s (summary_table df thr) /\ sum_group s = g.
Proof.
  intros Hx. apply flagged_run_iff_flagged_row in Hx.
  apply (summary_has_group (flagged_daily df thr)) in Hx.
  rewrite <- summary_table_eq in Hx.
  apply in_map_iff in Hx. destruct Hx as (s & Hg & Hs). eauto.
Qed.

Lemma flagged_row_on_input df thr g :
  (exists x, In x (flagged_daily df thr)
             /\ row_group x = g /\ row_flag x = true)
  <-> exists r, In r df /\ daily_group r = g
                /\ full_oos_flag thr (oos_rate r) = true.
Proof.
  split.
  - intros (x & Hx & Hg & Hf).
    exists (daily (flagged x)). split; [|split].
    + apply (Permutation_in _ (flagged_daily_perm df thr)).
      now apply (in_map (fun x => daily (flagged x))).
    + exact Hg.
    + now rewrite <- (flagged_daily_flag df thr x Hx).
  - intros (r & Hr & Hg & Hf).
    apply (Permutation_in _ (Permutation_sym (flagged_daily_perm df thr))) in Hr.
    apply in_map_iff in Hr. destruct Hr as (x & <- & Hx).
    exists x. split; [exact Hx|]. split; [exact Hg|].
    now rewrite (flagged_daily_flag df thr x Hx).
Qed.

(** X7.  A stricter threshold never adds to the summary: when the threshold
    is raised, every group that still has a summary row had one before, and
    its [total_full_oos_days] did not grow. *)
Theorem stricter_threshold_fewer_days (df : list daily_row) (thr1 thr2 : Q)
        (s2 : summary_row) :
  (thr1 <= thr2)%Q ->
  In s2 (summary_table df thr2) ->
  exists s1,
    In s1 (summary_table df thr1)
    /\ sum_group s1 = sum_group s2
    /\ total_full_oos_days s2 <= total_full_oos_days s1.
Proof.
  intros Hle Hs2.
  assert (Hrow : exists r, In r df /\ daily_group r = sum_group s2
                           /\ full_oos_flag thr2 (oos_rate r) = true).
  { apply flagged_row_on_input.
    apply flagged_run_iff_flagged_row.
    apply (summary_has_group (flagged_daily df thr2)).
    rewrite <- summary_table_eq. now apply in_map. }
  destruct Hrow as (r & Hr & Hg & Hf).
  destruct (summary_row_of_group df thr1 (sum_group s2)) as (s1 & Hs1 & Hg1).
  { apply flagged_row_on_input. exists r. split; [exact Hr|].
    split; [exact Hg|]. eapply full_oos_flag_antitone; eassumption. }
  exists s1. split; [exact Hs1|]. split; [exact Hg1|].
  rewrite (In_summary_total df thr1 s1 Hs1), (In_summary_total df thr2 s2 Hs2).
  rewrite Hg1, !full_days_on_input.
  apply filter_length_le. intros x _ Hx.
  apply andb_prop in Hx. destruct Hx as [Hk Hx].
  rewrite Hk. cbn [andb]. eapply full_oos_flag_antitone; eassumption.
Qed.

Lemma stricter_threshold_fewer_days_witness :
  exists s1,
    In s1 (summary_table ex_six (1 # 10)%Q)
    /\ sum_group s1 = ("A", "p")%string
    /\ total_full_oos_days (mk_summary "A" "p" 4 6 3 5)
       <= total_full_oos_days s1.
Proof.
  apply (stricter_threshold_fewer_days ex_six (1 # 10)%Q default_threshold
           (mk_summary "A" "p" 4 6 3 5)).
  - vm_compute. discriminate.
  - vm_compute. left. reflexivity.
Defined.

Lemma same_id_same_flag G :
  Sorted id_step G ->
  forall x y, In x G -> In y G -> run_id x = run_id y -> row_flag x = row_flag y.
Proof.
  intros Hs.
  assert (Hhead : forall a G', Sorted id_step (a :: G') ->
            (forall x y, In x G' -> In y G' -> run_id x = run_id y ->
                         row_flag x = row_flag y) ->
            forall y, In y G' -> run_id a = run_id y -> row_flag a = row_flag y).
  { intros a G' Hs' IH y Hy E.
    pose proof (id_steps_sorted _ Hs') as Hle. cbn [map] in Hle.
    inversion Hs' as [|? ? Hs'' Hhd]; subst.
    destruct G' as [|b G'']; [contradiction|].
    inversion Hhd as [|? ? Hab]; subst. unfold id_step in Hab.
    assert (Hby : run_id b <= run_id y).
    { destruct Hy as [<-|Hy]; [lia|].
      pose proof (id_steps_sorted _ Hs'') as Hle'. cbn [map] in Hle'.
      inversion Hle' as [|? ? _ Hb]; subst.
      rewrite Forall_forall in Hb. apply nat_le_of, Hb. now apply in_map. }
    destruct (Bool.eqb (row_flag b) (row_flag a)) eqn:Eb; [|lia].
    apply Bool.eqb_prop in Eb. rewrite <- Eb.
    apply IH; [now left|exact Hy|lia]. }
  induction Hs as [|a G' Hs' IH Hhd]; [intros x y []|].
  assert (Hsa : Sorted id_step (a :: G')) by now constructor.
  intros x y [<-|Hx] [<-|Hy] E; try reflexivity.
  - now apply (Hhead a G' Hsa IH).
  - symmetry. now apply (Hhead a G' Hsa IH).
  - now apply IH.
Qed.

Lemma Sorted_app_r {A} (R : A -> A -> Prop) l1 l2 :
  Sorted R (l1 ++ l2) -> Sorted R l2.
Proof.
  induction l1 as [|a l1 IH]; simpl; [auto|].
  intros Hs. inversion Hs; auto.
Qed.

Lemma Sorted_app_l {A} (R : A -> A -> Prop) l1 l2 :
  Sorted R (l1 ++ l2) -> Sorted R l1.
Proof.
  induction l1 as [|a l1 IH]; simpl; intros Hs; [constructor|].
  inversion Hs as [|? ? Hs' Hhd]; subst.
  constructor; [now apply IH|].
  destruct l1; simpl in *; [constructor|].
  inversion Hhd; subst. now constructor.
Qed.

(** Neighbouring flagged rows of a group series carry one identifier. *)
Lemma flagged_block_one_id q :
  Sorted id_step q ->
  Forall (fun x => row_flag x = true) q ->
  forall x y, In x q -> In y q -> run_id x = run_id y.
Proof.
  intros Hs Hall.
  assert (Hhead : forall a l, Sorted id_step (a :: l) ->
                    Forall (fun x => row_flag x = true) (a :: l) ->
                    forall y, In y l -> run_id a = run_id y).
  { intros a l. revert a.
    induction l as [|b l IH]; intros a Hs' Hall' y Hy; [contradiction|].
    inversion Hs' as [|? ? Hs'' Hhd]; subst.
    inversion Hhd as [|? ? Hab]; subst. unfold id_step in Hab.
    inversion Hall' as [|? ? Ha Hall'']; subst.
    inversion Hall'' as [|? ? Hb _]; subst.
    rewrite Ha, Hb in Hab. cbn in Hab.
    destruct Hy as [<-|Hy]; [lia|].
    rewrite <- (IH b Hs'' Hall'' y Hy). lia. }
  induction q as [|a q IH]; [intros x y []|].
  inversion Hs as [|? ? Hs' _]; subst.
  inversion Hall as [|? ? _ Hall']; subst.
  intros x y [<-|Hx] [<-|Hy]; try reflexivity.
  - now apply (Hhead a q).
  - symmetry. now apply (Hhead a q).
  - now apply IH.
Qed.

Lemma in_concat_split {A} (c : list A) cs :
  In c cs -> exists pre post, List.concat cs = pre ++ c ++ post.
Proof.
  induction cs as [|d cs IH]; simpl; [tauto|].
  intros [->|Hc].
  - exists [], (List.concat cs). reflexivity.
  - destruct (IH Hc) as (pre & post & ->).
    exists (d ++ pre), post. now rewrite app_assoc.
Qed.

(** The rows of a group are the same, in the same order, for every
    threshold. *)
Lemma group_rows_same df thr g :
  map (fun x => daily (flagged x))
      (get_group row_group g (flagged_daily df thr))
  = get_group daily_group g (sort_values cmp_daily df).
Proof.
  rewrite <- (get_group_map row_group daily_group
                (fun x => daily (flagged x))) by reflexivity.
  now rewrite flagged_daily_rows.
Qed.

(** X8.  A stricter threshold never lengthens the longest streak: when the
    threshold is raised, the [max_full_oos_streak_days] of every group that
    still has a summary row is at most what it was. *)
Theorem stricter_threshold_shorter_streak (df : list daily_row)
        (thr1 thr2 : Q) (s2 : summary_row) :
  (thr1 <= thr2)%Q ->
  In s2 (summary_table df thr2) ->
  exists s1,
    In s1 (summary_table df thr1)
    /\ sum_group s1 = sum_group s2
    /\ max_full_oos_streak_days s2 <= max_full_oos_streak_days s1.
Proof.
  intros Hle Hs2.
  set (g := sum_group s2).
  set (f := fun x : run_id_row => daily (flagged x)).
  (* the longest run at the stricter threshold and the rows it covers *)
  pose proof Hs2 as Hs2'. rewrite summary_table_eq in Hs2'.
  destruct (In_summary _ _ _ Hs2') as (m2 & l1 & l2 & Hl & _ & _ & Es2).
  fold g in Hl.
  assert (Hm2 : In m2 (filter run_is_full_oos
                         (get_group run_group g (run_table df thr2))))
    by (rewrite Hl; apply in_elt).
  apply filter_In in Hm2. destruct Hm2 as [Hm2 Hflag2].
  destruct (Forall2_In_left _ _ _ _ (group_covers df thr2 g) Hm2)
    as (c2 & Hc2 & Hcov).
  destruct Hcov as (Hne2 & Hd2 & Hall2 & _).
  destruct (in_concat_split _ _ Hc2) as (pre & post & Hsplit).
  rewrite chunks_concat in Hsplit.
  (* the same rows at the weaker threshold *)
  assert (Hmap : map f (get_group row_group g (flagged_daily df thr1))
                 = map f pre ++ map f c2 ++ map f post).
  { unfold f. rewrite group_rows_same, <- (group_rows_same df thr2 g).
    fold f. now rewrite Hsplit, !map_app. }
  apply map_eq_app in Hmap. destruct Hmap as (p1 & rest & HG1 & _ & Hrest).
  apply map_eq_app in Hrest. destruct Hrest as (q1 & t1 & -> & Hq1 & _).
  assert (Hlen : List.length q1 = List.length c2).
  { apply (f_equal (@List.length daily_row)) in Hq1.
    now rewrite !length_map in Hq1. }
  assert (HinG : forall x, In x q1 ->
                   In x (get_group row_group g (flagged_daily df thr1))).
  { intros x Hx. rewrite HG1. apply in_or_app. right.
    apply in_or_app. now left. }
  assert (Hq1flag : Forall (fun x => row_flag x = true) q1).
  { apply Forall_forall. intros x Hx.
    pose proof (HinG x Hx) as Hx1. apply get_group_In in Hx1.
    destruct Hx1 as [Hx1 _].
    rewrite (flagged_daily_flag df thr1 x Hx1).
    assert (Hfx : In (f x) (map f c2)) by (rewrite <- Hq1; now apply in_map).
    apply in_map_iff in Hfx. destruct Hfx as (x2 & Ex & Hx2).
    unfold f in Ex. rewrite <- Ex.
    apply (full_oos_flag_antitone thr1 thr2); [exact Hle|].
    assert (Hx2D : In x2 (flagged_daily df thr2)).
    { assert (Hin : In x2 (get_group row_group g (flagged_daily df thr2))).
      { rewrite Hsplit. apply in_or_app. right. apply in_or_app. now left. }
      now apply get_group_In in Hin. }
    rewrite <- (flagged_daily_flag df thr2 x2 Hx2D).
    rewrite Forall_forall in Hall2. destruct (Hall2 x2 Hx2) as (_ & -> & _).
    exact Hflag2. }
  pose proof (flagged_daily_steps df thr1 g) as Hsteps.
  assert (Hq1steps : Sorted id_step q1).
  { rewrite HG1 in Hsteps. apply Sorted_app_r in Hsteps.
    now apply Sorted_app_l in Hsteps. }
  destruct q1 as [|x q1]; [destruct c2; [congruence|discriminate]|].
  assert (Hx : In x (get_group row_group g (flagged_daily df thr1)))
    by (apply HinG; now left).
  pose proof Hx as HxD. apply get_group_In in HxD. destruct HxD as [HxD Hxg].
  (* the run of these rows at the weaker threshold *)
  set (k := (g, run_id x) : run_key).
  assert (Hk : In k (group_keys row_run_key (flagged_daily df thr1))).
  { apply group_keys_In. exists x. split; [exact HxD|].
    unfold row_run_key, k. now rewrite Hxg. }
  destruct (agg_run_some k (get_group row_run_key k (flagged_daily df thr1)))
    as (r1 & Hr1); [now apply get_group_nonempty|].
  assert (Hr1in : In r1 (run_table df thr1)).
  { rewrite run_table_eq. apply In_make_runs. eauto. }
  assert (Hdays : List.length (x :: q1) <= days r1).
  { rewrite (agg_run_days _ _ _ Hr1). unfold k.
    rewrite get_group_run_key, HG1, !get_group_app, !length_app.
    assert (E : get_group run_id (run_id x) (x :: q1) = x :: q1).
    { apply filter_all. apply Forall_forall. intros y Hy.
      apply key_eqb_eq. symmetry.
      apply (flagged_block_one_id _ Hq1steps Hq1flag); [now left|exact Hy]. }
    rewrite E. lia. }
  assert (Hflag1 : run_is_full_oos r1 = true).
  { rewrite (agg_run_flag _ _ _ Hr1).
    destruct (get_group row_run_key k (flagged_daily df thr1)) as [|y rows] eqn:Ek;
      [discriminate|].
    cbn [chunk_flag].
    assert (Hy : In y (get_group row_run_key k (flagged_daily df thr1)))
      by (rewrite Ek; now left).
    unfold k in Hy. rewrite get_group_run_key in Hy.
    apply get_group_In in Hy. destruct Hy as [Hy Hid].
    rewrite (same_id_same_flag _ Hsteps y x Hy Hx Hid).
    inversion Hq1flag; assumption. }
  assert (Hg1 : run_group r1 = g) by exact (agg_run_group _ _ _ Hr1).
  (* the summary row at the weaker threshold *)
  destruct (summary_row_of_group df thr1 g) as (s1 & Hs1 & Hgs1).
  { exists x. split; [exact HxD|]. split; [exact Hxg|].
    inversion Hq1flag; assumption. }
  exists s1. split; [exact Hs1|]. split; [exact Hgs1|].
  pose proof Hs1 as Hs1'. rewrite summary_table_eq in Hs1'.
  destruct (In_summary _ _ _ Hs1') as (m1 & l1' & l2' & Hl' & H1' & H2' & Es1).
  rewrite Hgs1 in Hl'.
  assert (Hr1f : In r1 (l1' ++ m1 :: l2')).
  { rewrite <- Hl'. apply filter_In. split; [|exact Hflag1].
    now apply get_group_In. }
  assert (Hmax : days r1 <= days m1).
  { rewrite Forall_forall in H1', H2'.
    apply in_app_or in Hr1f. destruct Hr1f as [Hin|[<-|Hin]].
    - specialize (H1' _ Hin). lia.
    - lia.
    - now apply H2'. }
  assert (E1 : max_full_oos_streak_days s1 = days m1) by now rewrite Es1.
  assert (E2 : max_full_oos_streak_days s2 = days m2) by now rewrite Es2.
  rewrite E1, E2, Hd2, <- Hlen. lia.
Qed.

Lemma stricter_threshold_shorter_streak_witness :
  exists s1,
    In s1 (summary_table ex_six (1 # 10)%Q)
    /\ sum_group s1 = ("A", "p")%string
    /\ max_full_oos_streak_days (mk_summary "A" "p" 4 6 3 5)
       <= max_full_oos_streak_days s1.
Proof.
  apply (stricter_threshold_shorter_streak ex_six (1 # 10)%Q default_threshold
           (mk_summary "A" "p" 4 6 3 5)).
  - vm_compute. discriminate.
  - vm_compute. left. reflexivity.
Defined.

(** * The ranked view on any frame *)

(** X9.  The ranked view of any frame has [n] rows, or all rows when the
    frame has fewer, and the rows it leaves out never rank above a row it
    keeps on (max_full_oos_streak_days, total_full_oos_days). *)
Theorem top_keeps_the_best (l : list summary_row) (n : nat) :
  List.length (top n l) = Nat.min n (List.length l)
  /\ exists rest,
      Permutation (top n l ++ rest) l
      /\ forall a b, In a (top n l) -> In b rest -> le_of cmp_rank a b.
Proof.
  unfold top. split.
  - now rewrite length_firstn, sort_values_length.
  - exists (skipn n (sort_values cmp_rank l)). split.
    + rewrite firstn_skipn. apply sort_values_perm.
    + pose proof (sort_values_sorted cmp_rank l) as Hs.
      rewrite <- (firstn_skipn n (sort_values cmp_rank l)) in Hs.
      now destruct (StronglySorted_app_inv _ _ _ Hs) as (_ & _ & H12).
Qed.

Lemma filter_firstn_prefix {A} (p : A -> bool) n l :
  exists k, filter p (firstn n l) = firstn k (filter p l).
Proof.
  revert n. induction l as [|x l IH]; intros [|n]; simpl;
    try (exists 0; reflexivity).
  destruct (IH n) as (k & Hk). rewrite Hk.
  destruct (p x); [exists (S k)|exists k]; reflexivity.
Qed.

Lemma rank_tie_sorted x l :
  StronglySorted (le_of cmp_rank) (filter (rank_tie x) l).
Proof.
  apply all_related_sorted. intros a b Ha Hb.
  apply filter_In in Ha, Hb. destruct Ha as [_ Ha], Hb as [_ Hb].
  unfold rank_tie, cmp_eqb in Ha, Hb.
  destruct (cmp_rank x a) eqn:Ea; try discriminate.
  destruct (cmp_rank x b) eqn:Eb; try discriminate.
  unfold le_of.
  rewrite <- (c_eq_l cmp_rank x a b Ea), Eb. reflexivity.
Qed.

(** X10.  On any frame, the rows that tie with a row [x] on both metrics
    stand in the ranked view in the order they have in the frame; cutting
    to [n] rows only drops the last of them. *)
Theorem top_ties_keep_frame_order (l : list summary_row) (n : nat)
        (x : summary_row) :
  filter (rank_tie x) (sort_values cmp_rank l) = filter (rank_tie x) l
  /\ exists k, filter (rank_tie x) (top n l) = firstn k (filter (rank_tie x) l).
Proof.
  assert (E : filter (rank_tie x) (sort_values cmp_rank l)
              = filter (rank_tie x) l).
  { rewrite (filter_sort_values cmp_rank).
    apply (sort_values_id cmp_rank), rank_tie_sorted. }
  split; [exact E|].
  unfold top. rewrite <- E. apply filter_firstn_prefix.
Qed.

(** X11.  A ranked view of a ranked view is a ranked view: the first [n]
    of the first [m] rows are the first [min n m] rows of the frame. *)
Theorem top_of_top (l : list summary_row) (n m : nat) :
  top n (top m l) = top (Nat.min n m) l.
Proof.
  unfold top.
  rewrite (sort_values_id cmp_rank (firstn m (sort_values cmp_rank l))).
  - apply firstn_firstn.
  - apply StronglySorted_firstn, sort_values_sorted. typeclasses eauto.
Qed.

(** * The bar plot *)

Lemma CmpOk_flip {A} (c : A -> A -> comparison) :
  CmpOk c -> CmpOk (fun a b => c b a).
Proof.
  intros Hc. split.
  - intros a b. apply (c_antisym b a).
  - intros a b d Hab Hbd. unfold le_of in *.
    exact (c_le_trans (c := c) d b a Hbd Hab).
Qed.

(** Sorting a frame that is in strict ([c], then [k]) order by the reverse
    of [c] leaves it in strict (reverse of [c], then [k]) order. *)
Lemma sort_values_reverse {A} (c k : A -> A -> comparison)
      `{!CmpOk c} `{!CmpOk k} l :
  StronglySorted (fun a b => lex (c a b) (k a b) = Lt) l ->
  StronglySorted (fun a b => lex (c b a) (k a b) = Lt)
                 (sort_values (fun a b => c b a) l).
Proof.
  pose proof (CmpOk_flip c _) as Hflip.
  pose proof (CmpOk_lex (fun a b => c b a) k _ _) as Hlex.
  assert (Htrans : forall a b d,
             lex (c b a) (k a b) = Lt -> lex (c d b) (k b d) = Lt ->
             lex (c d a) (k a d) = Lt)
    by apply (c_lt_trans (fun a b => lex (c b a) (k a b))).
  assert (Hins : forall x m,
             StronglySorted (fun a b => lex (c b a) (k a b) = Lt) m ->
             Forall (fun y => lex (c x y) (k x y) = Lt) m ->
             StronglySorted (fun a b => lex (c b a) (k a b) = Lt)
                            (sort_insert (fun a b => c b a) x m)).
  { intros x m Hs. induction Hs as [|y m Hs IH Hy]; intros Hk; simpl.
    - repeat constructor.
    - inversion Hk as [|? ? Hxy Hk']; subst.
      destruct (cmp_leb (c y x)) eqn:E.
      + assert (Hlt : lex (c y x) (k x y) = Lt).
        { pose proof (c_antisym (c := c) x y) as Ha. unfold lex in Hxy |- *.
          destruct (c x y), (c y x); simpl in *;
            try discriminate; assumption. }
        constructor; [now constructor|].
        constructor; [exact Hlt|].
        eapply Forall_impl; [|exact Hy]. intros z Hz. now apply (Htrans x y z).
      + constructor; [now apply IH|].
        eapply Permutation_Forall; [symmetry; apply sort_insert_perm|].
        constructor; [|exact Hy].
        unfold lex. now rewrite (c_not_le (fun a b => c b a) _ _ E). }
  induction 1 as [|x l Hs IH Hx]; simpl; [constructor|].
  apply Hins; [exact IH|].
  eapply Permutation_Forall; [symmetry; apply sort_values_perm|exact Hx].
Qed.

Lemma plot_frame_rows l :
  map plot_summary (plot_frame l)
  = sort_values (fun a b => cmp_rank b a) l.
Proof.
  unfold plot_frame. rewrite sort_values_map, map_map. cbn [plot_summary].
  rewrite map_id. reflexivity.
Qed.

Lemma rank_tie_sorted_reverse x l :
  StronglySorted (le_of (fun a b => cmp_rank b a)) (filter (rank_tie x) l).
Proof.
  apply all_related_sorted. intros a b Ha Hb.
  apply filter_In in Ha, Hb. destruct Ha as [_ Ha], Hb as [_ Hb].
  unfold rank_tie, cmp_eqb in Ha, Hb.
  destruct (cmp_rank x a) eqn:Ea; try discriminate.
  destruct (cmp_rank x b) eqn:Eb; try discriminate.
  unfold le_of.
  rewrite <- (c_eq_l cmp_rank x b a Eb), Ea. reflexivity.
Qed.

(** X12.  The bars of the plot are the rows of the frame it is given, each
    with the label made from its own store and product, in increasing
    order of (max_full_oos_streak_days, total_full_oos_days); the rows
    that tie on both metrics keep the order they have in the given frame,
    so the plot is the mirror image of a ranked view only where no two
    rows tie. *)
Theorem plot_frame_is_stable_ascending (df_top10 : list summary_row) :
  let bars := map plot_summary (plot_frame df_top10) in
  Permutation bars df_top10
  /\ StronglySorted (fun a b => le_of cmp_rank b a) bars
  /\ (forall x, filter (rank_tie x) bars = filter (rank_tie x) df_top10)
  /\ Forall (fun p => y_key p = make_y_key (plot_summary p))
            (plot_frame df_top10).
Proof.
  pose proof (CmpOk_flip cmp_rank _) as Hflip.
  intros bars. unfold bars. rewrite plot_frame_rows.
  split; [|split; [|split]].
  - apply sort_values_perm.
  - apply (sort_values_sorted (fun a b => cmp_rank b a)).
  - intros x. rewrite (filter_sort_values (fun a b => cmp_rank b a)).
    apply (sort_values_id (fun a b => cmp_rank b a)).
    apply rank_tie_sorted_reverse.
  - unfold plot_frame. apply Forall_forall. intros p Hp.
    apply sort_values_In in Hp. apply in_map_iff in Hp.
    destruct Hp as (r & <- & _). reflexivity.
Qed.

(** X13.  When the frame read by the plotting script lists its groups in
    increasing (store_name, e_code) order, as the summary of
    [calc_full_oos_streaks] does, the bars drawn for its first [n] ranked
    rows are in increasing order of the two metrics, and bars that tie on
    both are in increasing (store_name, e_code) order. *)
Theorem plot_frame_order (df : list summary_row) (n : nat) :
  StronglySorted (fun a b => lt_of (sum_group a) (sum_group b)) df ->
  StronglySorted plotted_before (map plot_summary (plot_frame (top n df))).
Proof.
  intros Hdf. rewrite plot_frame_rows. unfold plotted_before.
  apply (@sort_values_reverse summary_row cmp_rank
           (fun a b => cmp (sum_group a) (sum_group b))
           CmpOk_rank (CmpOk_key sum_group)).
  unfold top. apply StronglySorted_firstn.
  apply (@sort_values_then summary_row cmp_rank
           (fun a b => cmp (sum_group a) (sum_group b))
           CmpOk_rank (CmpOk_key sum_group)).
  exact Hdf.
Qed.

Lemma plot_frame_order_witness :
  StronglySorted plotted_before
    (map plot_summary
         (plot_frame (top 3 (summary_table ex_rank default_threshold)))).
Proof.
  apply (plot_frame_order (summary_table ex_rank default_threshold) 3).
  vm_compute. repeat constructor.
Defined.

Example ex_rank_plot :
  map y_key (plot_frame (top 3 (summary_table ex_rank default_threshold)))
  = [ "A | p"; "A | q"; "C | p" ]%string.
Proof. vm_compute. reflexivity. Qed.

(** ** The labels of the bars *)

Lemma py_len_app (a b : string) :
  py_len (a ++ b) = py_len a + py_len b.
Proof.
  induction a as [|c a IH]; simpl; [reflexivity|].
  rewrite IH. destruct (is_continuation c); reflexivity.
Qed.

Lemma py_len_take n s : py_len (py_take n s) = Nat.min n (py_len s).
Proof.
  revert n. induction s as [|c s IH]; intros n; simpl.
  - now rewrite Nat.min_0_r.
  - destruct (is_continuation c) eqn:E; simpl.
    + rewrite E. apply IH.
    + destruct n as [|n]; simpl; [reflexivity|].
      rewrite E, IH. reflexivity.
Qed.

Lemma py_len_ellipsis : py_len ellipsis = 1.
Proof. reflexivity. Qed.

(** Cutting a string after the characters of its first part gives that part,
    when the rest starts a new character. *)
Lemma py_take_app_exact (a b : string) :
  match b with
  | EmptyString => True
  | String c _ => is_continuation c = false
  end ->
  py_take (py_len a) (a ++ b) = a.
Proof.
  intros Hb. induction a as [|c a IH]; simpl.
  - destruct b as [|c b]; simpl; [reflexivity|]. now rewrite Hb.
  - destruct (is_continuation c) eqn:E; simpl; now rewrite IH.
Qed.

Lemma py_take_all n s : py_len s <= n -> py_take n s = s.
Proof.
  revert n. induction s as [|c s IH]; intros n; simpl; [reflexivity|].
  destruct (is_continuation c); simpl; intros Hn.
  - now rewrite IH.
  - destruct n as [|n]; [lia|]. rewrite IH; [reflexivity|lia].
Qed.

Lemma short_store_long s n :
  n < py_len s -> short_store s n = (py_take n s ++ ellipsis)%string.
Proof.
  intros Hn. unfold short_store.
  destruct (py_len s <=? n) eqn:E; [|reflexivity].
  apply Nat.leb_le in E. lia.
Qed.

Lemma short_store_short s n : py_len s <= n -> short_store s n = s.
Proof.
  intros Hn. unfold short_store. apply Nat.leb_le in Hn. now rewrite Hn.
Qed.

Lemma py_take_short_store s n :
  py_take n (short_store s n) = py_take n s.
Proof.
  destruct (Nat.le_gt_cases (py_len s) n) as [Hn|Hn].
  - now rewrite short_store_short.
  - rewrite short_store_long by exact Hn.
    assert (E : py_len (py_take n s) = n) by (rewrite py_len_take; lia).
    rewrite <- E at 1. apply py_take_app_exact. reflexivity.
Qed.

Lemma short_store_length s n :
  py_len (short_store s n) = Nat.min (py_len s) (n + 1).
Proof.
  destruct (Nat.le_gt_cases (py_len s) n) as [Hn|Hn].
  - rewrite short_store_short by exact Hn. lia.
  - rewrite short_store_long by exact Hn.
    rewrite py_len_app, py_len_take, py_len_ellipsis. lia.
Qed.

Lemma short_store_eq_iff s1 s2 n :
  short_store s1 n = short_store s2 n
  <-> s1 = s2
      \/ (n < py_len s1 /\ n < py_len s2 /\ py_take n s1 = py_take n s2).
Proof.
  split.
  - intros E.
    assert (El : Nat.min (py_len s1) (n + 1) = Nat.min (py_len s2) (n + 1))
      by (rewrite <- !short_store_length; now rewrite E).
    destruct (Nat.le_gt_cases (py_len s1) n) as [H1|H1].
    + left. rewrite <- (short_store_short s1 n), <- (short_store_short s2 n);
        [exact E| lia | lia].
    + right. split; [exact H1|]. split; [lia|].
      rewrite <- (py_take_short_store s1), <- (py_take_short_store s2).
      now rewrite E.
  - intros [->|(H1 & H2 & E)]; [reflexivity|].
    rewrite !short_store_long by assumption. now rewrite E.
Qed.

(** X14.  A shortened store name has at most [n + 1] characters, a name of
    at most [n] characters is left as it is, the label starts with the
    first [n] characters of the name, and shortening a shortened name
    changes nothing. *)
Theorem short_store_shortens (s : string) (n : nat) :
  py_len (short_store s n) = Nat.min (py_len s) (n + 1)
  /\ (py_len s <= n -> short_store s n = s)
  /\ py_take n (short_store s n) = py_take n s
  /\ short_store (short_store s n) n = short_store s n.
Proof.
  split; [|split; [|split]].
  - apply short_store_length.
  - apply short_store_short.
  - apply py_take_short_store.
  - destruct (Nat.le_gt_cases (py_len s) n) as [Hn|Hn].
    + rewrite (short_store_short s n Hn). now apply short_store_short.
    + rewrite (short_store_long (short_store s n)).
      * rewrite py_take_short_store. symmetry. now apply short_store_long.
      * rewrite short_store_length. lia.
Qed.

(** X15.  Two store names get the same shortened name exactly when they
    are the same name, or both have more than [n] characters and agree on
    their first [n] characters; a name that was cut is never the shortened
    form of a name that was not. *)
Theorem short_store_collision (s1 s2 : string) (n : nat) :
  (short_store s1 n = short_store s2 n
   <-> s1 = s2
       \/ (n < py_len s1 /\ n < py_len s2 /\ py_take n s1 = py_take n s2))
  /\ (py_len s1 <= n < py_len s2 -> short_store s1 n <> short_store s2 n).
Proof.
  split; [apply short_store_eq_iff|].
  intros [H1 H2] E. apply short_store_eq_iff in E.
  destruct E as [->|(H & _)]; lia.
Qed.

Lemma string_length_app (a b : string) :
  String.length (a ++ b) = String.length a + String.length b.
Proof. induction a as [|c a IH]; simpl; [reflexivity|now rewrite IH]. Qed.

Lemma string_app_cancel_r (a b t : string) :
  (a ++ t)%string = (b ++ t)%string -> a = b.
Proof.
  revert b. induction a as [|c a IH]; intros [|d b] E; simpl in E.
  - reflexivity.
  - apply (f_equal String.length) in E. simpl in E.
    rewrite string_length_app in E. lia.
  - apply (f_equal String.length) in E. simpl in E.
    rewrite string_length_app in E. lia.
  - injection E as -> E. f_equal. now apply IH.
Qed.

(** X16.  Two rows of one product get the same bar label exactly when
    their store names are the same, or both store names have more than 14
    characters and agree on their first 14. *)
Theorem y_key_collision (a b : summary_row) :
  sum_e_code a = sum_e_code b ->
  make_y_key a = make_y_key b
  <-> sum_store_name a = sum_store_name b
      \/ (14 < py_len (sum_store_name a) /\ 14 < py_len (sum_store_name b)
          /\ py_take 14 (sum_store_name a) = py_take 14 (sum_store_name b)).
Proof.
  intros Ee. rewrite <- short_store_eq_iff. unfold make_y_key.
  rewrite Ee. split.
  - apply string_app_cancel_r.
  - now intros ->.
Qed.

Lemma y_key_collision_witness :
  make_y_key (mk_summary "Gangnam Station West" "p" 1 3 3 3)
  = make_y_key (mk_summary "Gangnam Station East" "p" 2 4 2 2).
Proof.
  apply (proj2 (y_key_collision
                  (mk_summary "Gangnam Station West" "p" 1 3 3 3)
                  (mk_summary "Gangnam Station East" "p" 2 4 2 2)
                  eq_refl)).
  right. vm_compute. repeat split; lia.
Defined.

(** * The database settings *)

Lemma getenv_any_no_value env keys d :
  Forall (fun k => has_value env k = false) keys ->
  getenv_any env keys d = d.
Proof.
  induction 1 as [|k keys Hk _ IH]; simpl; [reflexivity|].
  unfold has_value in Hk. destruct (env k) as [v|]; [|exact IH].
  now rewrite Hk.
Qed.

(** X17.  [getenv_any] returns the value, as it is set, of the first key
    whose variable is set to something other than whitespace, and the
    default when no key has such a value; keys after that first one are
    not looked at. *)
Theorem getenv_any_first_value (env : environ) (keys : list string)
        (default : option string) :
  (exists before k after v,
      keys = before ++ k :: after
      /\ Forall (fun k' => has_value env k' = false) before
      /\ env k = Some v /\ is_blank v = false
      /\ forall after', getenv_any env (before ++ k :: after') default = Some v)
  \/ (Forall (fun k => has_value env k = false) keys
      /\ getenv_any env keys default = default).
Proof.
  induction keys as [|k keys IH].
  - right. split; [constructor|reflexivity].
  - destruct (has_value env k) eqn:Hk.
    + left. exists [], k, keys. unfold has_value in Hk.
      destruct (env k) as [v|] eqn:Ev; [|discriminate].
      exists v. repeat split; [constructor| |].
      * now destruct (is_blank v).
      * intros after'. simpl. now rewrite Ev, Hk.
    + destruct IH as [(before & k' & after & v & -> & Hb & Ev & Hv & Hget)
                     |[Hall Hget]].
      * left. exists (k :: before), k', after, v.
        repeat split; try assumption; [now constructor|].
        intros after'. simpl. unfold has_value in Hk.
        destruct (env k) as [w|]; [rewrite Hk|]; apply Hget.
      * right. split; [now constructor|].
        apply getenv_any_no_value. now constructor.
Qed.

Lemma is_blank_false_nonempty v : is_blank v = false -> (v =? "")%string = false.
Proof. destruct v; simpl; [discriminate|reflexivity]. Qed.

Lemma truthy_getenv_any env k1 k2 :
  truthy (getenv_any env [k1; k2] None)
  = has_value env k1 || has_value env k2.
Proof.
  unfold has_value. simpl.
  destruct (env k1) as [v1|]; [destruct (is_blank v1) eqn:E1|]; simpl;
    try (now rewrite is_blank_false_nonempty);
    destruct (env k2) as [v2|]; try reflexivity;
    destruct (is_blank v2) eqn:E2; simpl;
    try reflexivity; now rewrite is_blank_false_nonempty.
Qed.

Lemma getenv_any_default env keys d :
  exists t, getenv_any env keys (Some d) = Some t.
Proof.
  induction keys as [|k keys IH]; simpl; [now exists d|].
  destruct (env k) as [v|]; [|exact IH].
  destruct (is_blank v); simpl; [exact IH|now exists v].
Qed.

(** X18.  How [get_engine] ends.  The port text is the first of MYSQL_PORT
    and DB_PORT with a value, or 3306: when it is not a number the call
    ends in a [ValueError], whatever else is set.  Otherwise the call
    reaches [create_engine] exactly when each of host, user and database
    has a value that is not blank under one of its two names, and ends in
    the [RuntimeError] when one is missing; no password is needed. *)
Theorem get_engine_outcome (py_int : string -> option Z) (env : environ) :
  let port_text :=
    getenv_any env ["MYSQL_PORT"; "DB_PORT"]%string (Some "3306"%string) in
  let complete :=
    (has_value env "MYSQL_HOST" || has_value env "DB_HOST")
    && (has_value env "MYSQL_USER" || has_value env "DB_USER")
    && (has_value env "MYSQL_DB" || has_value env "DB_NAME") in
  get_engine py_int env <> TypeError
  /\ (get_engine py_int env = ValueError
      <-> exists t, port_text = Some t /\ py_int t = None)
  /\ ((exists message, get_engine py_int env = RuntimeError message)
      <-> exists t port,
          port_text = Some t /\ py_int t = Some port /\ complete = false)
  /\ ((exists url, get_engine py_int env = CreateEngine url)
      <-> exists t port,
          port_text = Some t /\ py_int t = Some port /\ complete = true).
Proof.
  intros port_text complete.
  destruct (getenv_any_default env ["MYSQL_PORT"; "DB_PORT"]%string
                               "3306"%string) as (t & Ht).
  unfold get_engine. fold port_text in Ht |- *. rewrite Ht.
  destruct (py_int t) as [port|] eqn:Ep.
  - rewrite !truthy_getenv_any. fold complete.
    destruct complete; cbn [negb].
    + repeat split; try discriminate.
      * intros (t' & E & Hn). congruence.
      * intros (m & E). discriminate.
      * intros (t' & p' & _ & _ & E). discriminate.
      * intros _. now exists t, port.
      * intros _. eexists. reflexivity.
    + repeat split; try discriminate.
      * intros (t' & E & Hn). congruence.
      * intros _. now exists t, port.
      * intros _. eexists. reflexivity.
      * intros (u & E). discriminate.
      * intros (t' & p' & _ & _ & E). discriminate.
  - repeat split; try discriminate.
    + intros _. now exists t.
    + intros (m & E). discriminate.
    + intros (t' & p' & E & Hp & _). congruence.
    + intros (u & E). discriminate.
    + intros (t' & p' & E & Hp & _). congruence.
Qed.

Lemma setenv_other env k v k' :
  (k' =? k)%string = false -> setenv env k v k' = env k'.
Proof. unfold setenv. now intros ->. Qed.

Lemma getenv_any_setenv_other env k v keys d :
  Forall (fun k' => (k' =? k)%string = false) keys ->
  getenv_any (setenv env k v) keys d = getenv_any env keys d.
Proof.
  induction 1 as [|k' keys Hk _ IH]; simpl; [reflexivity|].
  now rewrite setenv_other, IH.
Qed.

Lemma getenv_any_setenv_blank env k h keys d :
  is_blank h = true ->
  getenv_any (setenv env k (Some h)) keys d
  = getenv_any (setenv env k None) keys d.
Proof.
  intros Hh. induction keys as [|k' keys IH]; simpl; [reflexivity|].
  rewrite IH.
  change (setenv env k (Some h) k')
    with (if (k' =? k)%string then Some h else env k').
  change (setenv env k None k')
    with (if (k' =? k)%string then @None string else env k').
  destruct (k' =? k)%string; [|reflexivity].
  now rewrite Hh.
Qed.

(** X19.  The two ways a variable counts as missing.  A password set in
    MYSQL_PASSWORD, the empty one included, is the password used:
    DB_PASSWORD is then never read.  For host, port, user and database a
    variable set to whitespace only is the same as a variable that is not
    set. *)
Theorem get_engine_blank_and_password (py_int : string -> option Z)
        (env : environ) :
  (forall p q, env "MYSQL_PASSWORD"%string = Some p ->
               get_engine py_int (setenv env "DB_PASSWORD" q)
               = get_engine py_int env)
  /\ (forall k h,
         In k [ "MYSQL_HOST"; "DB_HOST"; "MYSQL_PORT"; "DB_PORT";
                "MYSQL_USER"; "DB_USER"; "MYSQL_DB"; "DB_NAME" ]%string ->
         is_blank h = true ->
         get_engine py_int (setenv env k (Some h))
         = get_engine py_int (setenv env k None)).
Proof.
  split.
  - intros p q Hp. unfold get_engine.
    rewrite !getenv_any_setenv_other by (repeat constructor).
    rewrite (setenv_other env "DB_PASSWORD" q "MYSQL_PASSWORD") by reflexivity.
    rewrite Hp. reflexivity.
  - intros k h Hk Hh. unfold get_engine.
    rewrite !(getenv_any_setenv_blank env k h) by exact Hh.
    assert (E : forall v k', In k' ["MYSQL_PASSWORD"; "DB_PASSWORD"]%string ->
                             setenv env k v k' = env k').
    { intros v k' Hk'. apply setenv_other.
      simpl in Hk, Hk'.
      repeat (destruct Hk as [<-|Hk]; [
        repeat (destruct Hk' as [<-|Hk']; [reflexivity|]); contradiction |]).
      contradiction. }
    rewrite !E by (simpl; auto). reflexivity.
Qed.

(** * The font of the plots *)

Lemma find_first {A} (p : A -> bool) l :
  match find p l with
  | Some x => exists before after,
      l = before ++ x :: after
      /\ Forall (fun y => p y = false) before /\ p x = true
  | None => Forall (fun y => p y = false) l
  end.
Proof.
  induction l as [|y l IH]; simpl; [constructor|].
  destruct (p y) eqn:Ey.
  - exists [], l. repeat split; [constructor|exact Ey].
  - destruct (find p l) as [x|].
    + destruct IH as (before & after & -> & Hb & Hx).
      exists (y :: before), after. repeat split; [now constructor|exact Hx].
    + now constructor.
Qed.

(** X20.  The font [setup_korean_font] passes on is the first of the seven
    candidates that is installed, whatever else is installed, and
    sans-serif when none of them is.  The function assigns it to
    matplotlib's font.family and, as a one-element list, to
    font.sans-serif, then clears axes.unicode_minus, and only then calls
    seaborn's [set_theme] with the whitegrid style and this font: the
    theme call is its last word on the fonts.  The warning line is printed
    exactly when no candidate is installed. *)
Theorem setup_korean_font_choice (installed : string -> bool) :
  let calls := setup_korean_font installed in
  exists chosen,
    ((exists before after,
         font_candidates = before ++ chosen :: after
         /\ Forall (fun name => installed name = false) before
         /\ installed chosen = true)
     \/ (Forall (fun name => installed name = false) font_candidates
         /\ chosen = "sans-serif"%string))
    /\ filter is_setting calls
       = [ RcParam "font.family" (RcStr chosen);
           RcParam "font.sans-serif" (RcList [chosen]);
           RcParam "axes.unicode_minus" (RcBool false);
           SetTheme "whitegrid" chosen ]
    /\ (In (PrintLine font_warning) calls
        <-> Forall (fun name => installed name = false) font_candidates).
Proof.
  intros calls. unfold calls, setup_korean_font.
  pose proof (find_first installed font_candidates) as H.
  destruct (find installed font_candidates) as [name|].
  - exists name. split; [left; exact H|]. split; [reflexivity|].
    destruct H as (before & after & E & _ & Hin). split.
    + intros Hw. exfalso. cbn [app In] in Hw.
      repeat (destruct Hw as [Hw|Hw]; [discriminate Hw|]). exact Hw.
    + intros Hall. exfalso. rewrite Forall_forall in Hall.
      assert (Hn : In name font_candidates) by (rewrite E; apply in_elt).
      rewrite (Hall name Hn) in Hin. discriminate.
  - exists "sans-serif"%string. split; [right; now split|].
    split; [reflexivity|]. split; [intros _; exact H|].
    intros _. now left.
Qed.
